(** * AC induction motor digital twin: the 3D viewer core

    A shallow embedding of the motor viewer of the dashboard, in its two
    variants:

    - [SewPredictive]: the viewer of [sew_predictive.jsx];
    - [Readme]: the cutaway viewer whose source follows the project notes
      in [README.md] (the one with [partialCylinder], the bearing balls
      and the numbered labels).

    Conventions of the embedding.

    - A JavaScript number is a real number ([R]): [Math.sin], [Math.cos],
      [Math.PI], [Math.max], [Math.min] are [sin], [cos], [PI], [Rmax],
      [Rmin]. Rounding of IEEE doubles (and the conversion to 32-bit floats
      of a [Float32BufferAttribute]) is not modelled there. The one
      exception is [Binary64]: the accumulated time and the rotor angle
      of [animate] are sums and products of doubles, and that module
      computes them bit for bit, with the kernel's binary64 numbers.
    - A loop counter and a segment count are natural numbers.
    - A component id is a string; the selection is an optional string
      ([None] is JavaScript's [null]).
    - An object created by [new] is named by the source variable that
      receives it and the index of the loop iteration that creates it
      ([0] outside loops): this is its identity, the key of the JavaScript
      [Map] [origMats] and of the stores of mutable fields.
    - Mutable fields ([c.material], [g.rotation.z],
      [material.emissiveIntensity]) live in explicit stores that the frame
      callback threads through.
    - Of three.js only what the viewer relies on is modelled, as three.js
      defines it: [Object3D.traverse], [Spherical.setFromVector3], and the
      composition of the rotations of nested groups. *)

From Stdlib Require Import Floats Reals Lra Lia List ZArith.
From stdpp Require Import base option list strings gmap.
Import ListNotations.

Set Warnings "-register-all,-inexact-float".

Open Scope R_scope.

(** ** JavaScript helpers *)

(** Identity of an object: (source variable, loop index). *)
Abbreviation ident := (string * nat)%type.

(** Truthiness of a selection value: [null] and the empty string are falsy. *)
Definition truthy (v : option string) : bool :=
  match v with
  | None => false
  | Some s => negb (String.eqb s "")
  end.

(** [tag === hid] for a string tag and a selection value. *)
Definition strict_eq (tag : string) (hid : option string) : bool :=
  bool_decide (hid = Some tag).

(** [Math.atan2(y, x)] (signed zeros are not distinguished). *)
Definition Math_atan2 (y x : R) : R :=
  if Rlt_dec 0 x then atan (y / x)
  else if Rlt_dec x 0 then
         (if Rle_dec 0 y then atan (y / x) + PI else atan (y / x) - PI)
  else if Rlt_dec 0 y then PI / 2
  else if Rlt_dec y 0 then - (PI / 2)
  else 0.

(** ** Selection state of [App] *)

Module Selection.

(** [useState(null)]. *)
Definition initial : option string := None.

(** The card's click handler:
    [setSelectedComp(selectedComp === c.id ? null : c.id)]. *)
Definition onClick (selectedComp : option string) (id : string)
  : option string :=
  if strict_eq id selectedComp then None else Some id.

(** The eight ids of the [COMPONENTS] table (same set in both variants). *)
Definition COMPONENT_IDS : list string :=
  ["bearing_drive"; "bearing_fan"; "stator_winding"; "rotor_bars";
   "shaft"; "junction_box"; "housing"; "fan_guard"]%string.

End Selection.

(** ** The partial-cylinder shell *)

Module Geometry.

(** The part of a [THREE.BufferGeometry] that [partialCylinder] fills:
    the flat position and normal arrays (item size 3) and the index. *)
Record BufferGeometry := {
  position : list R;
  normal : list R;
  index : list nat;
}.

(** Angle of the [i]-th ring sample. *)
Definition sample_angle (arcStart arcEnd : R) (radSegs i : nat) : R :=
  let t := INR i / INR radSegs in
  arcStart + (arcEnd - arcStart) * t.

(** Body of the first loop: two [push] calls on [verts] and on [norms]. *)
Definition push_ring (radius halfH arcStart arcEnd : R) (radSegs : nat)
    (acc : list R * list R) (i : nat) : list R * list R :=
  let a := sample_angle arcStart arcEnd radSegs i in
  let cx := sin a in
  let cy := cos a in
  let verts := fst acc ++ [cx * radius; cy * radius; - halfH] in
  let norms := snd acc ++ [cx; cy; 0] in
  let verts := verts ++ [cx * radius; cy * radius; halfH] in
  let norms := norms ++ [cx; cy; 0] in
  (verts, norms).

(** Body of the second loop: the two triangles of quad [i]. *)
Definition push_quad (indices : list nat) (i : nat) : list nat :=
  let a := (i * 2)%nat in
  let b := (a + 1)%nat in
  let c := (a + 2)%nat in
  let d := (c + 1)%nat in
  (indices ++ [a; c; b]) ++ [b; c; d].

Definition partialCylinder (radius height arcStart arcEnd : R)
    (radSegs : nat) : BufferGeometry :=
  let halfH := height * 0.5 in
  let rings :=
    fold_left (push_ring radius halfH arcStart arcEnd radSegs)
              (seq 0 (S radSegs)) ([], []) in
  let indices := fold_left push_quad (seq 0 radSegs) [] in
  {| position := fst rings; normal := snd rings; index := indices |}.

(** Number of vertices: the count of an attribute of item size 3. *)
Definition vertex_count (g : BufferGeometry) : nat :=
  (length (position g) / 3)%nat.




(** The cut of the housing and the solid remainder. *)
Definition CUT_START : R := -50 * PI / 180.
Definition CUT_END : R := 140 * PI / 180.

(** The solid arc is the remainder of a cut: from the cut's end to the
    cut's start plus a full turn. *)
Definition solid_arc (cutStart cutEnd : R) : R * R :=
  (cutEnd, cutStart + PI * 2).

Definition SOLID_START : R := fst (solid_arc CUT_START CUT_END).
Definition SOLID_END : R := snd (solid_arc CUT_START CUT_END).

Definition arc_span (arc : R * R) : R := snd arc - fst arc.

(** The six numbers one ring sample appends to [verts] and to [norms],
    and the six indices one quad appends to [indices]: the arrays are the
    concatenation of these blocks (see [partialCylinder_position],
    [partialCylinder_normal] and [partialCylinder_index]). *)
Definition ring_verts (radius height arcStart arcEnd : R) (radSegs i : nat)
  : list R :=
  let halfH := height * 0.5 in
  let a := sample_angle arcStart arcEnd radSegs i in
  [sin a * radius; cos a * radius; - halfH;
   sin a * radius; cos a * radius; halfH].

Definition ring_norms (arcStart arcEnd : R) (radSegs i : nat) : list R :=
  let a := sample_angle arcStart arcEnd radSegs i in
  [sin a; cos a; 0; sin a; cos a; 0].

Definition quad_indices (i : nat) : list nat :=
  [i * 2; i * 2 + 2; i * 2 + 1; i * 2 + 1; i * 2 + 2; i * 2 + 2 + 1]%nat.

End Geometry.

(** ** Scene graph *)

Module Scene.

(** [geometry.type] of the geometries the scenes use ([Buffer] is the
    plain [BufferGeometry] that [partialCylinder] returns). *)
Inductive geometry_type := Box | Cylinder | Torus | Sphere | Buffer.

(** What the viewer reads of a [THREE.Mesh] after it is built: its
    identity, the type of its geometry, the tag [userData.compId], the
    flag [userData.isLabel], the material given to the constructor and
    [position]. The shape and the orientation of a mesh are not read by
    the viewer's callbacks and are left out. *)
Record mesh := {
  oid : ident;
  geometry : geometry_type;
  compId : string;
  isLabel : bool;
  material0 : ident;
  pos : R * R * R;
}.

(** An object of the graph below [motor]: a mesh, a [THREE.Line] (not a
    mesh: [isMesh] is undefined on it) or a [THREE.Group] with its
    children in the order of the [add] calls. *)
Inductive Object3D :=
| Mesh (m : mesh)
| Line (id : ident)
| Group (id : ident) (children : list Object3D).

(** [o.traverse(callback)]: the object itself, then its children in
    order, recursively. *)
Fixpoint traverse (o : Object3D) : list Object3D :=
  o :: match o with
       | Group _ children => flat_map traverse children
       | _ => []
       end.

(** The objects of a traversal that satisfy [c.isMesh]. *)
Definition isMesh (c : Object3D) : option mesh :=
  match c with
  | Mesh m => Some m
  | _ => None
  end.

Definition meshes (o : Object3D) : list mesh :=
  omap isMesh (traverse o).

(** [origMats]: the callback
    [(c) => { if (c.isMesh) origMats.set(c, c.material); }].
    It runs once, before any assignment to [c.material], so the material
    read is the one the mesh was constructed with. *)
Definition origMats_visit (origMats : gmap ident ident) (c : Object3D)
  : gmap ident ident :=
  match isMesh c with
  | Some m => <[oid m := material0 m]> origMats
  | None => origMats
  end.

Definition build_origMats (motor : Object3D) : gmap ident ident :=
  fold_left origMats_visit (traverse motor) ∅.

(** The material store right after the scene is built. *)
Definition build_materials (motor : Object3D) : gmap ident ident :=
  list_to_map (map (fun m => (oid m, material0 m)) (meshes motor)).

(** [origMats.get(c) || c.material], assigned to [c.material]: a
    material object is truthy, [undefined] (no entry) is falsy, and
    assigning [c.material] to itself leaves the store as it is. *)
Definition restore (origMats : gmap ident ident) (m : mesh)
    (material : gmap ident ident) : gmap ident ident :=
  match origMats !! oid m with
  | Some orig => <[oid m := orig]> material
  | None => material
  end.

(** Local rotation about z of a group ([rotation.z], 0 until assigned). *)
Definition rotation_of (rotation_z : gmap ident R) (g : ident) : R :=
  default 0 (rotation_z !! g).

(** Angle about z of group [target] in world space. Every group on the
    way from the root has a rotation about z only (its [rotation.x] and
    [rotation.y] are never assigned) and is translated along z only, so
    the world rotation is the rotation about z by the sum of the local
    angles from the root down to the group. [acc] is the angle of the
    parent. *)
Fixpoint world_rotation_z (rotation_z : gmap ident R) (acc : R)
    (o : Object3D) (target : ident) : option R :=
  match o with
  | Group g children =>
      let here := acc + rotation_of rotation_z g in
      if bool_decide (g = target) then Some here
      else
        (fix first (cs : list Object3D) : option R :=
           match cs with
           | [] => None
           | c :: cs' =>
               match world_rotation_z rotation_z here c target with
               | Some a => Some a
               | None => first cs'
               end
           end) children
  | _ => None
  end.

(** Rotation of a point of the xy plane about the z axis. *)
Definition rotate_z (angle : R) (p : R * R) : R * R :=
  (cos angle * fst p - sin angle * snd p,
   sin angle * fst p + cos angle * snd p).

(** The mutable state the frame callback works on: [timeRef.current],
    [rotation.z] of the groups, [material] of the meshes and
    [emissiveIntensity] of the materials. *)
Record viewer := {
  time : R;
  rotation_z : gmap ident R;
  material : gmap ident ident;
  emissiveIntensity : gmap ident R;
}.

(** The highlight callback in general form: [guard] is the test that
    follows [c.isMesh] in the condition of the callback. Both variants
    are instances (see [highlight_visit_eq_SewPredictive] and
    [highlight_visit_eq_Readme]). *)
Definition highlight_with (guard : mesh -> bool) (highlightMat : ident)
    (origMats : gmap ident ident) (hid : option string)
    (material : gmap ident ident) (c : Object3D) : gmap ident ident :=
  match isMesh c with
  | Some m =>
      if guard m then
        if truthy hid && strict_eq (compId m) hid
        then <[oid m := highlightMat]> material
        else restore origMats m material
      else material
  | None => material
  end.

(** *** Auxiliary notions for the two traversals of [animate] *)

(** The condition of the highlight branch. *)
Definition selected (hid : option string) (m : mesh) : bool :=
  truthy hid && strict_eq (compId m) hid.

(** What the highlight visit of [c] assigns to the material of object
    [i], if it assigns anything. *)
Definition write_of (guard : mesh -> bool) (highlightMat : ident)
    (origMats : gmap ident ident) (hid : option string)
    (c : Object3D) (i : ident) : option ident :=
  match isMesh c with
  | Some m =>
      if guard m && bool_decide (oid m = i) then
        if selected hid m then Some highlightMat else origMats !! i
      else None
  | None => None
  end.

(** The last assignment a highlight traversal of [objs] makes to object
    [i]. *)
Fixpoint last_write (guard : mesh -> bool) (highlightMat : ident)
    (origMats : gmap ident ident) (hid : option string)
    (objs : list Object3D) (i : ident) : option ident :=
  match objs with
  | [] => None
  | c :: cs =>
      match last_write guard highlightMat origMats hid cs i with
      | Some x => Some x
      | None => write_of guard highlightMat origMats hid c i
      end
  end.

(** The coil-pulse callback in general form: [cond] is the condition on
    the mesh, [value] the intensity assigned. Both variants are instances
    (see [pulse_visit_eq_SewPredictive] and [pulse_visit_eq_Readme]). *)
Definition pulse_with (cond : mesh -> bool) (origMats : gmap ident ident)
    (value : mesh -> R) (emissive : gmap ident R) (c : Object3D)
  : gmap ident R :=
  match isMesh c with
  | Some m =>
      if cond m then
        match origMats !! oid m with
        | Some orig => <[orig := value m]> emissive
        | None => emissive
        end
      else emissive
  | None => emissive
  end.

(** Whether the coil-pulse visit of [c] writes to material [mat]. *)
Definition writes_to (cond : mesh -> bool) (origMats : gmap ident ident)
    (mat : ident) (c : Object3D) : bool :=
  match isMesh c with
  | Some m => cond m && bool_decide (origMats !! oid m = Some mat)
  | None => false
  end.

(** The last mesh of a traversal whose coil-pulse visit writes to
    [mat]. *)
Fixpoint last_pulse (cond : mesh -> bool) (origMats : gmap ident ident)
    (objs : list Object3D) (mat : ident) : option mesh :=
  match objs with
  | [] => None
  | c :: cs =>
      match last_pulse cond origMats cs mat with
      | Some m => Some m
      | None => if writes_to cond origMats mat c then isMesh c else None
      end
  end.

(** A mesh that carries one of the eight component ids and no label
    flag. *)
Definition well_tagged (m : mesh) : Prop :=
  compId m ∈ Selection.COMPONENT_IDS /\ isLabel m = false.

End Scene.

(** ** Orbit and zoom of the camera *)

Module Orbit.

(** [THREE.Spherical]: radius, polar angle [phi], azimuth [theta]. *)
Record Spherical := {
  radius : R;
  phi : R;
  theta : R;
}.

(** [new THREE.Spherical().setFromVector3(v)], as three.js defines it:
    the radius is the length of [v]; for a zero radius both angles are
    0, otherwise [theta = atan2(x, z)] and
    [phi = acos(clamp(y / radius, -1, 1))]. *)
Definition setFromVector3 (v : R * R * R) : Spherical :=
  let '(x, y, z) := v in
  let r := sqrt (x * x + y * y + z * z) in
  if Req_dec_T r 0 then {| radius := r; phi := 0; theta := 0 |}
  else {| radius := r;
          phi := acos (Rmax (-1) (Rmin 1 (y / r)));
          theta := Math_atan2 x z |}.

(** The closure variables of the orbit handlers. *)
Record state := {
  isDrag : bool;
  prev : R * R;
  sph : Spherical;
}.

Definition initial (camera_position : R * R * R) : state :=
  {| isDrag := false; prev := (0, 0);
     sph := setFromVector3 camera_position |}.

Definition onDown (x y : R) (s : state) : state :=
  {| isDrag := true; prev := (x, y); sph := sph s |}.

Definition onUp (s : state) : state :=
  {| isDrag := false; prev := prev s; sph := sph s |}.

Definition onMove (x y : R) (s : state) : state :=
  if negb (isDrag s) then s
  else
    let theta' := theta (sph s) - (x - fst (prev s)) * 0.005 in
    let phi' := phi (sph s) - (y - snd (prev s)) * 0.005 in
    let phi' := Rmax 0.15 (Rmin (PI - 0.15) phi') in
    {| isDrag := isDrag s; prev := (x, y);
       sph := {| radius := radius (sph s); phi := phi'; theta := theta' |} |}.

(** [onWheel]; [lo] and [hi] are the two literals of the clamp. *)
Definition onWheel (lo hi : R) (deltaY : R) (s : state) : state :=
  {| isDrag := isDrag s; prev := prev s;
     sph := {| radius := Rmax lo (Rmin hi (radius (sph s) + deltaY * 0.0004));
               phi := phi (sph s); theta := theta (sph s) |} |}.

(** The events the listeners deliver: mouse and wheel events, and touch
    events with their number of contact points. *)
Inductive event :=
| mousedown (clientX clientY : R)
| mouseup
| mousemove (clientX clientY : R)
| wheel (deltaY : R)
| touchstart (touches : list (R * R))
| touchmove (touches : list (R * R))
| touchend.

Definition handle (lo hi : R) (e : event) (s : state) : state :=
  match e with
  | mousedown x y => onDown x y s
  | mouseup => onUp s
  | mousemove x y => onMove x y s
  | wheel deltaY => onWheel lo hi deltaY s
  | touchstart [(x, y)] => onDown x y s
  | touchstart _ => s
  | touchmove [(x, y)] => onMove x y s
  | touchmove _ => s
  | touchend => onUp s
  end.

(** The state after a sequence of events, oldest first. *)
Definition run (lo hi : R) (events : list event) (s : state) : state :=
  fold_left (fun s e => handle lo hi e s) events s.

(** The bounds the handlers clamp to. *)
Definition in_bounds (lo hi : R) (sp : Spherical) : Prop :=
  lo <= radius sp <= hi /\ 0.15 <= phi sp <= PI - 0.15.

End Orbit.

(** ** The viewer of [sew_predictive.jsx] *)

Module SewPredictive.
Import Scene.

Definition camera_position : R * R * R := (0.38, 0.16, 0.34).

(** Materials, in the order they are created. *)
Definition housing : ident := ("housing", 0%nat).
Definition endcap : ident := ("endcap", 0%nat).
Definition rotorMat : ident := ("rotorMat", 0%nat).
Definition shaftMat : ident := ("shaftMat", 0%nat).
Definition coilMat : ident := ("coilMat", 0%nat).
Definition barMat : ident := ("barMat", 0%nat).
Definition ringMat : ident := ("ringMat", 0%nat).
Definition fanBlkMat : ident := ("fanBlkMat", 0%nat).
Definition guardMat : ident := ("guardMat", 0%nat).
Definition boxMat : ident := ("boxMat", 0%nat).
Definition footMat : ident := ("footMat", 0%nat).
Definition highlightMat : ident := ("highlightMat", 0%nat).

(** Dimensions. *)
Definition hR : R := 0.090.
Definition hL : R := 0.240.
Definition rR : R := 0.074.
Definition rL : R := 0.200.
Definition ecT : R := 0.022.
Definition shR : R := 0.014.
Definition shExtD : R := 0.065.
Definition shExtF : R := 0.030.

(** [new THREE.Mesh(geometry, mat)] received by variable [name] in
    iteration [i], then tagged and positioned. *)
Definition mk (name : string) (i : nat) (geo : geometry_type)
    (mat : ident) (tag : string) (p : R * R * R) : Object3D :=
  Mesh {| oid := (name, i); geometry := geo; compId := tag;
          isLabel := false; material0 := mat; pos := p |}.

Definition end_tag (idx : nat) : string :=
  if (idx =? 0)%nat then "bearing_drive" else "bearing_fan".

Definition stInR : R := hR - 0.008.
Definition totalSh : R := rL + shExtD + shExtF.
Definition shOff : R := (shExtF - shExtD) / 2.
Definition keyL : R := shExtD * 0.7.
Definition fanZ : R := rL / 2 + shExtF + ecT + 0.005 + shOff.
Definition guardZ : R := fanZ + 0.012.
Definition jbY : R := hR + 0.006 + 0.017.
Definition footY : R := - (hR + 0.006).

(** Children of [statorG], in the order of the [statorG.add] calls. *)
Definition stator_children : list Object3D :=
  [mk "housingMesh" 0 Cylinder housing "housing" (0, 0, 0)]
  ++ map (fun i =>
            let a := (INR i / 28) * PI * 2 in
            mk "fin" i Box housing "housing"
               (0, cos a * (hR + 0.003), sin a * (hR + 0.003)))
         (seq 0 28)
  ++ imap (fun idx z => mk "ec" idx Cylinder endcap (end_tag idx) (0, 0, z))
          [- (hL / 2 + ecT / 2); hL / 2 + ecT / 2]
  ++ map (fun i =>
            let a := (INR i / 36) * PI * 2 in
            mk "coil" i Torus coilMat "stator_winding"
               (0, cos a * stInR, sin a * stInR))
         (seq 0 36)
  ++ imap (fun idx z => mk "br" idx Torus barMat (end_tag idx) (0, 0, z))
          [- (hL / 2 + ecT + 0.001); hL / 2 + ecT + 0.001]
  ++ imap (fun idx z => mk "gr" idx Torus guardMat "fan_guard" (0, 0, z))
          [guardZ; guardZ - 0.02]
  ++ [mk "guardSide" 0 Cylinder guardMat "fan_guard" (0, 0, guardZ - 0.009);
      mk "jbox" 0 Box boxMat "junction_box" (0, jbY, -0.02);
      mk "jlid" 0 Box boxMat "junction_box" (0, jbY + 0.0185, -0.02);
      mk "foot" 0 Box footMat "housing" (0, footY, 0)].

(** Children of [fanG]: the hub and the six blades. *)
Definition fan_children : list Object3D :=
  [mk "m" 0 Cylinder fanBlkMat "fan_guard" (0, 0, 0)]
  ++ map (fun i =>
            let a := (INR i / 6) * PI * 2 in
            mk "blade" i Box fanBlkMat "fan_guard"
               (0, cos a * 0.034, sin a * 0.034))
         (seq 0 6).

Definition fanG : ident := ("fanG", 0%nat).
Definition rotorG : ident := ("rotorG", 0%nat).
Definition statorG : ident := ("statorG", 0%nat).

(** Children of [rotorG]; the fan group is the last one added. *)
Definition rotor_children : list Object3D :=
  [mk "rotorMesh" 0 Cylinder rotorMat "rotor_bars" (0, 0, 0)]
  ++ map (fun i =>
            let a := (INR i / 32) * PI * 2 in
            mk "bar" i Cylinder barMat "rotor_bars"
               (0, cos a * (rR - 0.004), sin a * (rR - 0.004)))
         (seq 0 32)
  ++ imap (fun idx z => mk "ring" idx Torus ringMat "rotor_bars" (0, 0, z))
          [- (rL / 2); rL / 2]
  ++ [mk "shaftMesh" 0 Cylinder shaftMat "shaft" (0, 0, shOff);
      mk "keyMesh" 0 Box ("keyMesh.material", 0%nat) "shaft"
         (0, shR - 0.002, - (rL / 2 + shExtD / 2 - keyL / 2 - shOff));
      Group fanG fan_children].

(** [motor], with [statorG] added before [rotorG]. *)
Definition motor : Object3D :=
  Group ("motor", 0%nat)
        [Group statorG stator_children; Group rotorG rotor_children].

Definition origMats : gmap ident ident := build_origMats motor.

(** The viewer when [animate] is first called. The materials created
    with an explicit [emissiveIntensity] are listed. *)
Definition initial : viewer :=
  {| time := 0;
     rotation_z := ∅;
     material := build_materials motor;
     emissiveIntensity :=
       <[highlightMat := 0.5]>
         (<[coilMat := 0.2]> (<[rotorMat := 0.35]> ∅)) |}.

(** The highlight callback of [animate]. *)
Definition highlight_visit (hid : option string)
    (material : gmap ident ident) (c : Object3D) : gmap ident ident :=
  match isMesh c with
  | Some m =>
      if truthy hid && strict_eq (compId m) hid
      then <[oid m := highlightMat]> material
      else restore origMats m material
  | None => material
  end.

Definition highlight_pass (hid : option string)
    (material : gmap ident ident) : gmap ident ident :=
  fold_left (highlight_visit hid) (traverse motor) material.

(** The value the coil pulse writes for a mesh at time [time]. *)
Definition pulse_value (time : R) (m : mesh) : R :=
  let '(_, y, z) := pos m in
  let ph := (y + z) * 25 in
  0.2 + sin (time * 25 + ph) * 0.25.

(** The coil-pulse callback: the third conjunct, [origMats.get(c)], is
    truthy exactly when the map has an entry for [c]. *)
Definition pulse_visit (time : R) (emissive : gmap ident R)
    (c : Object3D) : gmap ident R :=
  match isMesh c with
  | Some m =>
      if String.eqb (compId m) "stator_winding" then
        match origMats !! oid m with
        | Some orig => <[orig := pulse_value time m]> emissive
        | None => emissive
        end
      else emissive
  | None => emissive
  end.

Definition pulse_pass (time : R) (emissive : gmap ident R)
  : gmap ident R :=
  fold_left (pulse_visit time) (traverse motor) emissive.

(** Angle the driver assigns to [rotorG.rotation.z]. *)
Definition rotor_angle (time : R) : R :=
  time * ((1740 / 60) * PI * 2).

(** One call of [animate] with [highlightRef.current = hid]. *)
Definition animate (hid : option string) (v : viewer) : viewer :=
  let time := time v + 0.016 in
  {| time := time;
     rotation_z := <[rotorG := rotor_angle time]> (rotation_z v);
     material := highlight_pass hid (material v);
     emissiveIntensity := pulse_pass time (emissiveIntensity v) |}.

(** The viewer after the frames whose selections are [hids], oldest
    first. *)
Definition frames (hids : list (option string)) (v : viewer) : viewer :=
  fold_left (fun v hid => animate hid v) hids v.

(** World angles of the two spinning groups. *)
Definition rotor_world (v : viewer) : option R :=
  world_rotation_z (rotation_z v) 0 motor rotorG.
Definition fan_world (v : viewer) : option R :=
  world_rotation_z (rotation_z v) 0 motor fanG.

(** The clamp of [onWheel]. *)
Definition radius_min : R := 0.2.
Definition radius_max : R := 1.0.

(** The condition of the coil-pulse callback that comes before the
    look-up in [origMats]. *)
Definition is_winding (m : mesh) : bool :=
  String.eqb (compId m) "stator_winding".

(** The driver turns [rotorG] only: in a reachable state [motor] and
    [fanG] have no rotation of their own. *)
Definition only_rotor_turns (v : viewer) : Prop :=
  rotation_z v !! ("motor", 0%nat) = None /\
  rotation_z v !! fanG = None.

End SewPredictive.

(** ** The cutaway viewer of [README.md] *)

Module Readme.
Import Scene.

Definition camera_position : R * R * R := (0.34, 0.18, 0.36).

(** Dimensions. *)
Definition hR : R := 0.088.
Definition hL : R := 0.230.
Definition rR : R := 0.070.
Definition rL : R := 0.190.
Definition ecT : R := 0.020.
Definition shR : R := 0.012.

(** Materials. A material created inline for a mesh is named after the
    mesh ([mesh.material]). *)
Definition mHousing : ident := ("mHousing", 0%nat).
Definition mEndSolid : ident := ("mEndSolid", 0%nat).
Definition mEndTrans : ident := ("mEndTrans", 0%nat).
Definition mLam : ident := ("mLam", 0%nat).
Definition mBar : ident := ("mBar", 0%nat).
Definition mRing : ident := ("mRing", 0%nat).
Definition mShaft : ident := ("mShaft", 0%nat).
Definition mCoil : ident := ("mCoil", 0%nat).
Definition mInsul : ident := ("mInsul", 0%nat).
Definition mSlot : ident := ("mSlot", 0%nat).
Definition mFan : ident := ("mFan", 0%nat).
Definition mGuard : ident := ("mGuard", 0%nat).
Definition mBox : ident := ("mBox", 0%nat).
Definition mFoot : ident := ("mFoot", 0%nat).
Definition mBolt : ident := ("mBolt", 0%nat).
Definition mHLIGHT : ident := ("mHLIGHT", 0%nat).

Definition mk (name : string) (i : nat) (geo : geometry_type)
    (mat : ident) (tag : string) (p : R * R * R) : Object3D :=
  Mesh {| oid := (name, i); geometry := geo; compId := tag;
          isLabel := false; material0 := mat; pos := p |}.

(** The housing barrel is the solid back arc. *)
Definition SOLID_START : R := Geometry.SOLID_START.
Definition SOLID_END : R := Geometry.SOLID_END.
Definition housingGeo : Geometry.BufferGeometry :=
  Geometry.partialCylinder hR hL SOLID_START SOLID_END 48.

Definition FIN_COUNT : nat := 18.
Definition finH : R := 0.008.
Definition stInR : R := hR - 0.008.
Definition SLOT_N : nat := 24.
Definition END_LOOPS : nat := 12.
Definition drL : R := 0.085.
Definition fnL : R := 0.042.
Definition fanZ : R := rL * 0.5 + fnL + ecT + 0.008.
Definition gZ : R := fanZ + 0.012.
Definition jbY : R := hR + 0.024.
Definition footY : R := - (hR + 0.007).

(** The housing, the four edge lines and the fins. *)
Definition housing_part : list Object3D :=
  [mk "housingMesh" 0 Buffer mHousing "housing" (0, 0, 0)]
  ++ imap (fun idx (_ : R) => Line ("cutEdge", idx))
          [Geometry.CUT_START; Geometry.CUT_END]
  ++ imap (fun idx (_ : R) => Line ("arcEnd", idx)) [- hL * 0.5; hL * 0.5]
  ++ map (fun i =>
            let a := SOLID_START
                     + (SOLID_END - SOLID_START)
                       * ((INR i + 0.5) / INR FIN_COUNT) in
            mk "fin" i Box ("fin.material", i) "housing"
               (sin a * (hR + finH * 0.5), cos a * (hR + finH * 0.5), 0))
         (seq 0 FIN_COUNT).

(** End caps, bearing bosses and bolts. *)
Definition endcap_part : list Object3D :=
  [mk "ecDrive" 0 Cylinder mEndSolid "bearing_drive"
      (0, 0, - (hL * 0.5 + ecT * 0.5));
   mk "ecFan" 0 Cylinder mEndTrans "bearing_fan"
      (0, 0, hL * 0.5 + ecT * 0.5)]
  ++ imap (fun idx '(z, id, mat) => mk "boss" idx Cylinder mat id (0, 0, z))
          [(- (hL * 0.5 + ecT + 0.004), "bearing_drive"%string, mEndSolid);
           (hL * 0.5 + ecT + 0.004, "bearing_fan"%string, mEndTrans)]
  ++ map (fun b =>
            let ba := (INR b / 4) * PI * 2 + PI / 6 in
            mk "bolt" b Cylinder mBolt "bearing_drive"
               (sin ba * 0.046, cos ba * 0.046, - (hL * 0.5 + ecT + 0.003)))
         (seq 0 4).

(** Slot liners and copper bundles, then the end-turn loops at both
    ends. In a loop nested in a [forEach], iteration [i] of entry [idx]
    has index [idx * n + i], with [n] the length of the inner loop. *)
Definition winding_part : list Object3D :=
  flat_map (fun i =>
              let a := (INR i / INR SLOT_N) * PI * 2 in
              let cx := sin a in
              let cy := cos a in
              let slotR := stInR - 0.004 in
              [mk "liner" i Box mSlot "stator_winding"
                  (cx * (slotR + 0.001), cy * (slotR + 0.001), 0);
               mk "bundle" i Cylinder mCoil "stator_winding"
                  (cx * (slotR - 0.002), cy * (slotR - 0.002), 0)])
           (seq 0 SLOT_N)
  ++ concat
       (imap (fun idx z =>
                flat_map (fun i =>
                            let a := (INR i / INR END_LOOPS) * PI * 2 in
                            let loopR := stInR - 0.014 in
                            let cx := sin a * loopR in
                            let cy := cos a * loopR in
                            let k := (idx * END_LOOPS + i)%nat in
                            [mk "insul" k Torus mInsul "stator_winding"
                                (cx, cy, z);
                             mk "copper" k Torus mCoil "stator_winding"
                                (cx, cy, z)])
                         (seq 0 END_LOOPS))
             [- (rL * 0.5 + 0.006); rL * 0.5 + 0.006]).

(** The two bearings: outer race, inner race and a group of nine balls. *)
Definition bearing_part : list Object3D :=
  concat
    (imap (fun idx '(z, id) =>
             let oR := 0.027 in
             let iR := 0.015 in
             let mR := (oR + iR) * 0.5 in
             [mk "outer" idx Torus ("outer.material", idx) id (0, 0, z);
              mk "inner" idx Torus ("inner.material", idx) id (0, 0, z);
              Group ("ballG", idx)
                    (map (fun b =>
                            let ba := (INR b / 9) * PI * 2 in
                            let k := (idx * 9 + b)%nat in
                            mk "ball" k Sphere ("ball.material", k) id
                               (sin ba * mR, cos ba * mR, 0))
                         (seq 0 9))])
          [(- (hL * 0.5 + ecT + 0.002), "bearing_drive"%string);
           (hL * 0.5 + ecT + 0.002, "bearing_fan"%string)]).

(** Fan guard: two rings, the side wall and ten spokes, each spoke in a
    group of its own. *)
Definition guard_part : list Object3D :=
  imap (fun idx gz => mk "gr" idx Torus mGuard "fan_guard" (0, 0, gz))
       [gZ; gZ - 0.018]
  ++ [mk "gSide" 0 Cylinder mGuard "fan_guard" (0, 0, gZ - 0.009)]
  ++ map (fun s =>
            Group ("spG", s)
                  [mk "sp" s Cylinder mGuard "fan_guard" (0, 0.030, 0)])
         (seq 0 10).

(** Junction box, foot and the four foot bolts. *)
Definition base_part : list Object3D :=
  [mk "jb" 0 Box mBox "junction_box" (0, jbY, -0.018);
   mk "jl" 0 Box mBox "junction_box" (0, jbY + 0.0165, -0.018);
   mk "foot" 0 Box mFoot "housing" (0, footY, 0)]
  ++ imap (fun idx '(x, z) =>
             mk "h" idx Cylinder ("h.material", idx) "housing" (x, footY, z))
          [(-0.078, -0.030); (-0.078, 0.030); (0.078, -0.030);
           (0.078, 0.030)].

(** Children of [statorG], in the order of the [statorG.add] calls. *)
Definition stator_children : list Object3D :=
  housing_part ++ endcap_part ++ winding_part ++ bearing_part
  ++ guard_part ++ base_part.

Definition lamN : nat := 34.
Definition lamT : R := rL / INR lamN.

(** Children of [fanG]: the hub and the seven blades. *)
Definition fan_children : list Object3D :=
  [mk "hub" 0 Cylinder mFan "fan_guard" (0, 0, 0)]
  ++ map (fun i =>
            let a := (INR i / 7) * PI * 2 in
            mk "blade" i Box mFan "fan_guard"
               (sin a * 0.032, cos a * 0.032, 0))
         (seq 0 7).

Definition statorG : ident := ("statorG", 0%nat).
Definition rotorG : ident := ("rotorG", 0%nat).
Definition fanG : ident := ("fanG", 0%nat).

(** Children of [rotorG]: laminations, bars, end rings, the stepped
    shaft with its keyway, and the fan group. *)
Definition rotor_children : list Object3D :=
  map (fun i =>
         mk "lam" i Cylinder mLam "rotor_bars"
            (0, 0, - (rL * 0.5) + lamT * (INR i + 0.5)))
      (seq 0 lamN)
  ++ map (fun i =>
            let a := (INR i / 28) * PI * 2 in
            mk "bar" i Cylinder mBar "rotor_bars"
               (sin a * (rR - 0.0032), cos a * (rR - 0.0032), 0))
         (seq 0 28)
  ++ imap (fun idx z => mk "ring" idx Torus mRing "rotor_bars" (0, 0, z))
          [- (rL * 0.5); rL * 0.5]
  ++ [mk "shCore" 0 Cylinder mShaft "shaft" (0, 0, 0);
      mk "shDr" 0 Cylinder mShaft "shaft" (0, 0, - (rL * 0.5 + drL * 0.5));
      mk "shFn" 0 Cylinder mShaft "shaft" (0, 0, rL * 0.5 + fnL * 0.5);
      mk "shl" 0 Cylinder mShaft "shaft" (0, 0, - (rL * 0.5));
      mk "kw" 0 Box ("kw.material", 0%nat) "shaft"
         (0, shR - 0.0016, - (rL * 0.5 + 0.035));
      Group fanG fan_children].

(** [motor], with [statorG] added before [rotorG]. The numbered label
    sprites are added to [scene], not to [motor], and are not meshes. *)
Definition motor : Object3D :=
  Group ("motor", 0%nat)
        [Group statorG stator_children; Group rotorG rotor_children].

Definition origMats : gmap ident ident := build_origMats motor.

(** [bbGroups]: the groups below [statorG] with nine children, the first
    of which is a mesh with a sphere geometry. *)
Definition bbGroups_visit (c : Object3D) : option ident :=
  match c with
  | Group g (Mesh m :: rest) =>
      match geometry m with
      | Sphere => if (length (Mesh m :: rest) =? 9)%nat then Some g else None
      | _ => None
      end
  | _ => None
  end.

Definition bbGroups : list ident :=
  omap bbGroups_visit (traverse (Group statorG stator_children)).

(** The viewer when [animate] is first called. *)
Definition initial : viewer :=
  {| time := 0;
     rotation_z := ∅;
     material := build_materials motor;
     emissiveIntensity := <[mHLIGHT := 0.55]> (<[mCoil := 0.28]> ∅) |}.

(** The highlight callback of [animate]. *)
Definition highlight_visit (hid : option string)
    (material : gmap ident ident) (c : Object3D) : gmap ident ident :=
  match isMesh c with
  | Some m =>
      if negb (isLabel m) then
        if truthy hid && strict_eq (compId m) hid
        then <[oid m := mHLIGHT]> material
        else restore origMats m material
      else material
  | None => material
  end.

Definition highlight_pass (hid : option string)
    (material : gmap ident ident) : gmap ident ident :=
  fold_left (highlight_visit hid) (traverse motor) material.

(** The value the coil pulse writes for a mesh at time [time]. *)
Definition pulse_value (time : R) (m : mesh) : R :=
  let '(x, y, _) := pos m in
  let a := Math_atan2 x y in
  0.14 + sin (time * 18 + a * 3) * 0.22.

(** The coil-pulse callback, for the meshes whose original material is
    the copper material [mCoil]. *)
Definition pulse_visit (time : R) (emissive : gmap ident R)
    (c : Object3D) : gmap ident R :=
  match isMesh c with
  | Some m =>
      if String.eqb (compId m) "stator_winding"
         && bool_decide (origMats !! oid m = Some mCoil)
      then
        match origMats !! oid m with
        | Some orig => <[orig := pulse_value time m]> emissive
        | None => emissive
        end
      else emissive
  | None => emissive
  end.

Definition pulse_pass (time : R) (emissive : gmap ident R)
  : gmap ident R :=
  fold_left (pulse_visit time) (traverse motor) emissive.

Definition angV : R := (1740 / 60) * PI * 2.

(** Angle the driver assigns to [rotorG.rotation.z]. *)
Definition rotor_angle (time : R) : R := time * angV.

(** One call of [animate] with [hlRef.current = hid]. *)
Definition animate (hid : option string) (v : viewer) : viewer :=
  let time := time v + 0.016 in
  let rotation_z := <[rotorG := rotor_angle time]> (rotation_z v) in
  let rotation_z := <[fanG := time * angV]> rotation_z in
  let rotation_z :=
    fold_left (fun rot g => <[g := time * angV * 0.44]> rot)
              bbGroups rotation_z in
  {| time := time;
     rotation_z := rotation_z;
     material := highlight_pass hid (material v);
     emissiveIntensity := pulse_pass time (emissiveIntensity v) |}.

(** The viewer after the frames whose selections are [hids], oldest
    first. *)
Definition frames (hids : list (option string)) (v : viewer) : viewer :=
  fold_left (fun v hid => animate hid v) hids v.

(** World angles of the two spinning groups. *)
Definition rotor_world (v : viewer) : option R :=
  world_rotation_z (rotation_z v) 0 motor rotorG.
Definition fan_world (v : viewer) : option R :=
  world_rotation_z (rotation_z v) 0 motor fanG.

(** The clamp of [onWheel]. *)
Definition radius_min : R := 0.22.
Definition radius_max : R := 0.9.

(** The condition of the coil-pulse callback. *)
Definition is_copper (m : mesh) : bool :=
  String.eqb (compId m) "stator_winding"
  && bool_decide (origMats !! oid m = Some mCoil).

End Readme.

(** ** Mock sensor series *)

Module MockData.

(** [generateSeries] of [sew_predictive.jsx]. [random i] is the value the
    [i]-th call of [Math.random] returns while the array is filled: one
    call per element, in index order. *)
Definition generateSeries (random : nat -> R) (base noise : R)
    (count : nat) : list R :=
  map (fun i =>
         base + (random i - 0.5) * noise
         + sin (INR i * 0.3) * (noise * 0.4))
      (seq 0 count).

(** [gen] of the cutaway viewer, with the last product written
    [Math.sin(i * 0.3) * noise * 0.4]: the same real number, though not
    always the same double, as that of [generateSeries]. *)
Definition gen (random : nat -> R) (base noise : R) (n : nat) : list R :=
  map (fun i =>
         base + (random i - 0.5) * noise + sin (INR i * 0.3) * noise * 0.4)
      (seq 0 n).

(** What [Math.random] guarantees of its results. *)
Definition unit_interval (random : nat -> R) : Prop :=
  forall i : nat, 0 <= random i < 1.

End MockData.

(** ** The component registry and what [App] derives from it *)

Module Registry.

(** An entry of [COMPONENTS] (the [icon] glyph, which is only displayed,
    is left out). *)
Record component := {
  id : string;
  label : string;
  health : R;
  status : string;
  temp : R;
  vibration : R;
  faults : list string;
  rrh : string;
  color : string;
}.

(** The table of [sew_predictive.jsx]. *)
Definition COMPONENTS : list component :=
  [ {| id := "bearing_drive"; label := "Drive-Side Bearing"; health := 78;
       status := "warning"; temp := 62; vibration := 4.2;
       faults := ["Outer Race Wear"; "Misalignment Risk"]%string;
       rrh := "12 days"; color := "#f5a623" |};
    {| id := "bearing_fan"; label := "Fan-Side Bearing"; health := 94;
       status := "good"; temp := 48; vibration := 1.1; faults := [];
       rrh := "—"; color := "#2ed573" |};
    {| id := "stator_winding"; label := "Stator Winding"; health := 88;
       status := "good"; temp := 71; vibration := 0.4; faults := [];
       rrh := "—"; color := "#2ed573" |};
    {| id := "rotor_bars"; label := "Rotor / Bars"; health := 65;
       status := "critical"; temp := 84; vibration := 5.8;
       faults := ["Broken Bar Signature"; "Eccentricity Detected"]%string;
       rrh := "3 days"; color := "#ff4757" |};
    {| id := "shaft"; label := "Shaft & Keyway"; health := 91;
       status := "good"; temp := 55; vibration := 0.9; faults := [];
       rrh := "—"; color := "#2ed573" |};
    {| id := "junction_box"; label := "Junction Box"; health := 97;
       status := "good"; temp := 42; vibration := 0.2; faults := [];
       rrh := "—"; color := "#2ed573" |};
    {| id := "housing"; label := "Housing / Fins"; health := 85;
       status := "good"; temp := 58; vibration := 1.3; faults := [];
       rrh := "—"; color := "#2ed573" |};
    {| id := "fan_guard"; label := "Fan & Guard"; health := 72;
       status := "warning"; temp := 46; vibration := 2.9;
       faults := ["Fan Blade Imbalance"]%string;
       rrh := "8 days"; color := "#f5a623" |} ].

(** The table of the cutaway viewer: the same entries in another order. *)
Definition COMPONENTS_README : list component :=
  [ {| id := "shaft"; label := "Shaft & Keyway"; health := 91;
       status := "good"; temp := 55; vibration := 0.9; faults := [];
       rrh := "—"; color := "#2ed573" |};
    {| id := "bearing_drive"; label := "Drive-Side Bearing"; health := 78;
       status := "warning"; temp := 62; vibration := 4.2;
       faults := ["Outer Race Wear"; "Misalignment Risk"]%string;
       rrh := "12 days"; color := "#f5a623" |};
    {| id := "rotor_bars"; label := "Rotor / Bars"; health := 65;
       status := "critical"; temp := 84; vibration := 5.8;
       faults := ["Broken Bar Signature"; "Eccentricity Detected"]%string;
       rrh := "3 days"; color := "#ff4757" |};
    {| id := "stator_winding"; label := "Stator Winding"; health := 88;
       status := "good"; temp := 71; vibration := 0.4; faults := [];
       rrh := "—"; color := "#2ed573" |};
    {| id := "bearing_fan"; label := "Fan-Side Bearing"; health := 94;
       status := "good"; temp := 48; vibration := 1.1; faults := [];
       rrh := "—"; color := "#2ed573" |};
    {| id := "housing"; label := "Housing / Fins"; health := 85;
       status := "good"; temp := 58; vibration := 1.3; faults := [];
       rrh := "—"; color := "#2ed573" |};
    {| id := "fan_guard"; label := "Fan & Guard"; health := 72;
       status := "warning"; temp := 46; vibration := 2.9;
       faults := ["Fan Blade Imbalance"]%string;
       rrh := "8 days"; color := "#f5a623" |};
    {| id := "junction_box"; label := "Junction Box"; health := 97;
       status := "good"; temp := 42; vibration := 0.2; faults := [];
       rrh := "—"; color := "#2ed573" |} ].

(** [COMPONENTS.find((c) => c.id === selectedComp)]. *)
Definition selComp (table : list component) (selectedComp : option string)
  : option component :=
  List.find (fun c => strict_eq (id c) selectedComp) table.

(** [COMPONENTS.filter((c) => c.status === "critical").length] and its
    twin for ["warning"]. *)
Definition critCount (table : list component) : nat :=
  length (List.filter (fun c => String.eqb (status c) "critical") table).

Definition warnCount (table : list component) : nat :=
  length (List.filter (fun c => String.eqb (status c) "warning") table).

(** The value of the "Alerts" tile. *)
Definition alerts (table : list component) : nat :=
  (critCount table + warnCount table)%nat.

(** [CompCard] draws the pulsing dot when [comp.status !== "good"]. *)
Definition has_dot (c : component) : bool :=
  negb (String.eqb (status c) "good").

(** The selection after the cards whose ids are [clicks] are clicked in
    turn. *)
Definition clicks_from (selectedComp : option string)
    (clicks : list string) : option string :=
  fold_left Selection.onClick clicks selectedComp.

End Registry.

(** ** The camera that the orbit handlers move *)

Module Camera.
Import Orbit.

(** [camera.position.setFromSpherical(sph)], as three.js defines
    [Vector3.setFromSphericalCoords]. *)
Definition setFromSpherical (s : Spherical) : R * R * R :=
  let sinPhiRadius := sin (phi s) * radius s in
  (sinPhiRadius * sin (theta s),
   cos (phi s) * radius s,
   sinPhiRadius * cos (theta s)).

(** The orbit state together with [camera.position]. *)
Record rig := {
  orbit : state;
  position : R * R * R;
}.

(** [camera.position.set(...)], then [sph] is read off the position. *)
Definition initial (camera_position : R * R * R) : rig :=
  {| orbit := Orbit.initial camera_position; position := camera_position |}.

(** [onMove] with its [camera.position.setFromSpherical(sph)]; without a
    drag it returns before touching anything. *)
Definition onMove (x y : R) (r : rig) : rig :=
  if negb (isDrag (orbit r)) then r
  else
    let o := Orbit.onMove x y (orbit r) in
    {| orbit := o; position := setFromSpherical (sph o) |}.

(** [onWheel] with its [camera.position.setFromSpherical(sph)]. *)
Definition onWheel (lo hi deltaY : R) (r : rig) : rig :=
  let o := Orbit.onWheel lo hi deltaY (orbit r) in
  {| orbit := o; position := setFromSpherical (sph o) |}.

Definition onDown (x y : R) (r : rig) : rig :=
  {| orbit := Orbit.onDown x y (orbit r); position := position r |}.

Definition onUp (r : rig) : rig :=
  {| orbit := Orbit.onUp (orbit r); position := position r |}.

Definition handle (lo hi : R) (e : event) (r : rig) : rig :=
  match e with
  | mousedown x y => onDown x y r
  | mouseup => onUp r
  | mousemove x y => onMove x y r
  | wheel deltaY => onWheel lo hi deltaY r
  | touchstart [(x, y)] => onDown x y r
  | touchstart _ => r
  | touchmove [(x, y)] => onMove x y r
  | touchmove _ => r
  | touchend => onUp r
  end.

Definition run (lo hi : R) (events : list event) (r : rig) : rig :=
  fold_left (fun r e => handle lo hi e r) events r.


(** The events that cannot start a drag or zoom: moves and releases. *)
Definition passive (e : event) : bool :=
  match e with
  | mousemove _ _ | mouseup | touchmove _ | touchend => true
  | touchstart [_] => false
  | touchstart _ => true
  | _ => false
  end.

(** The events that [onWheel] handles. *)
Definition is_wheel (e : event) : bool :=
  match e with
  | wheel _ => true
  | _ => false
  end.

End Camera.

(** ** Vectors, for the faces of the partial cylinder *)

Module Vec3.







End Vec3.

(** ** Parts of the cutaway scene *)

Module ReadmeParts.

(** Angle of cooling fin [i]: the middle of the [i]-th of [FIN_COUNT]
    equal parts of the solid arc. *)
Definition fin_angle (i : nat) : R :=
  Readme.SOLID_START
  + (Readme.SOLID_END - Readme.SOLID_START)
    * ((INR i + 0.5) / INR Readme.FIN_COUNT).

(** The ids of the groups below a graph, in traversal order. *)
Definition group_id (c : Scene.Object3D) : option ident :=
  match c with
  | Scene.Group g _ => Some g
  | _ => None
  end.

Definition groups (o : Scene.Object3D) : list ident :=
  omap group_id (Scene.traverse o).

End ReadmeParts.

(** ** The frame clock in double precision *)

(** The first statements of [animate] add and multiply doubles:
    [timeRef.current += 0.016] and
    [rotorG.rotation.z = timeRef.current * ((1740 / 60) * Math.PI * 2)].
    Here they are computed as JavaScript computes them, in IEEE 754
    binary64 with rounding to nearest: [+], [*] and [/] below are the
    operations of the kernel's floating-point numbers, and a decimal
    literal is the double nearest to it, as in JavaScript. *)
Module Binary64.

(** [Math.PI]: the double nearest to pi, 3.141592653589793. *)
Definition Math_PI : float := 0x1.921fb54442d18p+1%float.

(** [timeRef.current] and [rotorG.rotation.z]. *)
Record clock := {
  time : float;
  rotation_z : float;
}.

(** [useRef(0)] and the rotation of a new [THREE.Group]. *)
Definition initial : clock := {| time := 0%float; rotation_z := 0%float |}.

(** [sew_predictive.jsx]. *)
Module SewPredictive.

(** Angle the driver assigns to [rotorG.rotation.z]. *)
Definition rotor_angle (time : float) : float :=
  (time * ((1740 / 60) * Math_PI * 2))%float.

(** Time and rotor angle in one call of [animate]. *)
Definition animate (c : clock) : clock :=
  let time := (time c + 0.016)%float in
  {| time := time; rotation_z := rotor_angle time |}.

(** The clock after [n] frames. *)
Definition frames (n : nat) (c : clock) : clock := Nat.iter n animate c.

End SewPredictive.

(** The cutaway viewer of [README.md]. *)
Module Readme.

Definition angV : float := ((1740 / 60) * Math_PI * 2)%float.

(** Angle the driver assigns to [rotorG.rotation.z]. *)
Definition rotor_angle (time : float) : float := (time * angV)%float.

(** Time and rotor angle in one call of [animate]. *)
Definition animate (c : clock) : clock :=
  let time := (time c + 0.016)%float in
  {| time := time; rotation_z := rotor_angle time |}.

(** The clock after [n] frames. *)
Definition frames (n : nat) (c : clock) : clock := Nat.iter n animate c.

End Readme.




End Binary64.

(** * Properties *)

(** ** Numeric facts *)

(** Four digits of [PI], from the alternating series of Machin's formula
    with 1/3 and 1/7. *)
Lemma PI_digits : 3.1415 < PI < 3.1417.
Proof.
  pose proof (PI_2_3_7_ineq 2) as H.
  unfold sum_f_R0, tg_alt, PI_2_3_7_tg, Ratan_seq in H.
  simpl in H.
  lra.
Qed.

Lemma clamp_in_range (lo hi x : R) :
  lo <= hi -> lo <= Rmax lo (Rmin hi x) <= hi.
Proof.
  intros Hle. split.
  - apply Rmax_l.
  - apply Rmax_lub; [exact Hle | apply Rmin_l].
Qed.

(** ** Selection *)

(** C6: from a selection that is not X, a click on X followed by a click
    on X leaves nothing selected, and a click on X followed by a click on
    a different id Y leaves Y selected. *)
Theorem selection_toggle (X Y : string) (s : option string) :
  X <> Y -> s <> Some X ->
  Selection.onClick (Selection.onClick s X) X = None /\
  Selection.onClick (Selection.onClick s X) Y = Some Y.
Proof.
  intros HXY Hs. unfold Selection.onClick, strict_eq.
  rewrite (bool_decide_eq_false_2 (s = Some X)) by exact Hs.
  split.
  - rewrite bool_decide_eq_true_2; reflexivity.
  - rewrite bool_decide_eq_false_2; [reflexivity | congruence].
Qed.

Lemma selection_toggle_witness :
  Selection.onClick (Selection.onClick None "housing") "housing" = None /\
  Selection.onClick (Selection.onClick None "housing") "shaft"
  = Some "shaft"%string.
Proof.
  apply (selection_toggle "housing" "shaft" None).
  - intros H. discriminate H.
  - intros H. discriminate H.
Defined.

(** The first click from the initial state ([null]) selects the card. *)
Lemma first_click_selects (X : string) :
  Selection.onClick Selection.initial X = Some X.
Proof. reflexivity. Qed.

(** ** Arc complement *)




(** The cut of the housing, -50 to 140 degrees, is narrower than a full
    turn, so the housing's solid arc spans 170 degrees. *)
Lemma housing_solid_arc :
  Geometry.SOLID_END - Geometry.SOLID_START = 170 * PI / 180 /\
  Geometry.SOLID_START < Geometry.SOLID_END.
Proof.
  unfold Geometry.SOLID_END, Geometry.SOLID_START, Geometry.solid_arc,
    Geometry.CUT_START, Geometry.CUT_END. simpl.
  pose proof PI_RGT_0. split; lra.
Qed.

(** The span depends on the width of the cut only, not on where it sits. *)
Lemma solid_arc_shift (cutStart cutEnd shift : R) :
  Geometry.arc_span (Geometry.solid_arc (cutStart + shift) (cutEnd + shift))
  = Geometry.arc_span (Geometry.solid_arc cutStart cutEnd).
Proof. unfold Geometry.arc_span, Geometry.solid_arc. simpl. lra. Qed.

(** ** The partial cylinder *)

Section PartialCylinder.
Import Geometry.

Variables radius height arcStart arcEnd : R.
Variable radSegs : nat.

#[local] Abbreviation halfH := (height * 0.5).
#[local] Abbreviation ring_verts :=
  (Geometry.ring_verts radius height arcStart arcEnd radSegs).
#[local] Abbreviation ring_norms :=
  (Geometry.ring_norms arcStart arcEnd radSegs).

Lemma fold_push_ring (l : list nat) (acc : list R * list R) :
  fold_left (push_ring radius halfH arcStart arcEnd radSegs) l acc
  = (fst acc ++ flat_map ring_verts l, snd acc ++ flat_map ring_norms l).
Proof.
  revert acc. induction l as [|i l IH]; intros [verts norms]; simpl.
  - now rewrite !app_nil_r.
  - rewrite IH. unfold push_ring. simpl.
    now rewrite <- !app_assoc.
Qed.

Lemma fold_push_quad (l : list nat) (acc : list nat) :
  fold_left push_quad l acc = acc ++ flat_map quad_indices l.
Proof.
  revert acc. induction l as [|i l IH]; intros acc; simpl.
  - now rewrite app_nil_r.
  - rewrite IH. unfold push_quad. now rewrite <- !app_assoc.
Qed.

Lemma partialCylinder_position :
  position (partialCylinder radius height arcStart arcEnd radSegs)
  = flat_map ring_verts (seq 0 (S radSegs)).
Proof. unfold partialCylinder. now rewrite fold_push_ring. Qed.

Lemma partialCylinder_normal :
  normal (partialCylinder radius height arcStart arcEnd radSegs)
  = flat_map ring_norms (seq 0 (S radSegs)).
Proof. unfold partialCylinder. now rewrite fold_push_ring. Qed.

Lemma partialCylinder_index :
  index (partialCylinder radius height arcStart arcEnd radSegs)
  = flat_map quad_indices (seq 0 radSegs).
Proof. unfold partialCylinder. now rewrite fold_push_quad. Qed.

End PartialCylinder.

(** Length and entries of a list made of blocks of six. *)
Section Blocks.
Context {A : Type} (f : nat -> list A) (d : A).
Hypothesis block : forall i, length (f i) = 6%nat.

Lemma blocks_length (s n : nat) :
  length (flat_map f (seq s n)) = (6 * n)%nat.
Proof.
  revert s. induction n as [|n IH]; intros s; simpl; [reflexivity |].
  rewrite length_app, block, IH. lia.
Qed.

End Blocks.





(** ** Camera orbit *)

Section OrbitBounds.
Import Orbit.

Lemma cos_small : 0.98 < cos 0.15.
Proof.
  replace 0.15 with (2 * 0.075) by lra.
  rewrite cos_2a_sin.
  pose proof PI_digits as HPI.
  assert (H1 : sin 0.075 < 0.075) by (apply sin_lt_x; lra).
  assert (H0 : 0 < sin 0.075) by (apply sin_gt_0; lra).
  nra.
Qed.

(** The polar angle of a direction whose height is between 0 and half
    the radius is well inside the clamp range. *)
Lemma acos_inside (q : R) :
  0 <= q <= 1 / 2 -> 0.15 <= acos q <= PI - 0.15.
Proof.
  intros Hq.
  pose proof PI_digits as HPI.
  pose proof cos_small as Hc.
  assert (Hb : 0 <= acos q <= PI) by (apply acos_bound).
  assert (Hcos : cos (acos q) = q) by (apply cos_acos; lra).
  split.
  - destruct (Rle_lt_dec 0.15 (acos q)) as [|Hlt]; [assumption |].
    assert (cos 0.15 < cos (acos q)) by (apply cos_decreasing_1; lra).
    lra.
  - destruct (Rle_lt_dec (acos q) (PI - 0.15)) as [|Hgt]; [assumption |].
    assert (cos (acos q) < 0) by (apply cos_lt_0; lra).
    lra.
Qed.

Lemma sqrt_between (x lo hi : R) :
  0 <= lo -> lo * lo <= x <= hi * hi -> lo <= hi -> lo <= sqrt x <= hi.
Proof.
  intros Hlo [H1 H2] Hle. split.
  - apply Rle_trans with (sqrt (lo * lo)).
    + rewrite sqrt_square; lra.
    + apply sqrt_le_1_alt; assumption.
  - apply Rle_trans with (sqrt (hi * hi)).
    + apply sqrt_le_1_alt; assumption.
    + rewrite sqrt_square; lra.
Qed.

(** The spherical coordinates of a camera position above the ground
    plane, at a distance between 0.5 and 0.6 and at a height of at most
    a quarter: both initial camera positions are of this kind. *)
Lemma setFromVector3_in_bounds (lo hi x y z : R) :
  lo <= 0.5 -> 0.6 <= hi -> 0 <= y <= 0.25 ->
  0.25 <= x * x + y * y + z * z <= 0.36 ->
  in_bounds lo hi (setFromVector3 (x, y, z)).
Proof.
  intros Hlo Hhi Hy Hsq.
  assert (Hr : 0.5 <= sqrt (x * x + y * y + z * z) <= 0.6)
    by (apply sqrt_between; lra).
  unfold setFromVector3.
  set (r := sqrt (x * x + y * y + z * z)) in *.
  destruct (Req_dec_T r 0) as [H0|_]; [lra |].
  unfold in_bounds; simpl.
  assert (Hq : 0 <= y / r <= 1 / 2).
  { assert (Hpos : 0 < / r) by (apply Rinv_0_lt_compat; lra).
    assert (Hinv : / r <= / 0.5) by (apply Rinv_le_contravar; lra).
    replace (/ 0.5) with 2 in Hinv by lra.
    unfold Rdiv. nra. }
  rewrite (Rmin_right 1 (y / r)) by lra.
  rewrite (Rmax_right (-1) (y / r)) by lra.
  split; [lra | apply acos_inside; exact Hq].
Qed.

Variables lo hi : R.
Hypothesis lo_le_hi : lo <= hi.

(** Every handler keeps the radius and the polar angle in bounds. *)
Lemma handle_in_bounds (e : event) (s : state) :
  in_bounds lo hi (sph s) -> in_bounds lo hi (sph (handle lo hi e s)).
Proof.
  intros [Hr Hp].
  assert (Hmove : forall x y, in_bounds lo hi (sph (onMove x y s))).
  { intros x y. unfold onMove.
    destruct (isDrag s); simpl; [| split; assumption].
    split; simpl; [assumption |].
    apply clamp_in_range. pose proof PI_digits. lra. }
  assert (Hsame : in_bounds lo hi (sph s)) by (split; assumption).
  destruct e as [x y| |x y|dy|ts|ts|]; simpl; try exact Hsame.
  - apply Hmove.
  - split; simpl; [apply clamp_in_range; exact lo_le_hi | assumption].
  - destruct ts as [|[x y] [|]]; exact Hsame.
  - destruct ts as [|[x y] [|]]; try exact Hsame. apply Hmove.
Qed.

Lemma run_in_bounds (events : list event) (s : state) :
  in_bounds lo hi (sph s) -> in_bounds lo hi (sph (run lo hi events s)).
Proof.
  revert s. induction events as [|e events IH]; intros s Hs; simpl.
  - exact Hs.
  - apply IH, handle_in_bounds, Hs.
Qed.

(** The wheel alone: whatever the radius was, it is in range after one
    wheel event. *)
Lemma onWheel_radius (deltaY : R) (s : state) :
  lo <= radius (sph (onWheel lo hi deltaY s)) <= hi.
Proof. simpl. apply clamp_in_range, lo_le_hi. Qed.

End OrbitBounds.

Lemma initial_in_bounds_SewPredictive :
  Orbit.in_bounds SewPredictive.radius_min SewPredictive.radius_max
    (Orbit.sph (Orbit.initial SewPredictive.camera_position)).
Proof.
  unfold Orbit.initial, SewPredictive.camera_position,
    SewPredictive.radius_min, SewPredictive.radius_max.
  cbn [Orbit.sph]. apply setFromVector3_in_bounds; lra.
Qed.

Lemma initial_in_bounds_Readme :
  Orbit.in_bounds Readme.radius_min Readme.radius_max
    (Orbit.sph (Orbit.initial Readme.camera_position)).
Proof.
  unfold Orbit.initial, Readme.camera_position,
    Readme.radius_min, Readme.radius_max.
  cbn [Orbit.sph]. apply setFromVector3_in_bounds; lra.
Qed.

(** C7: from the initial camera state, after any finite sequence of
    pointer, touch and wheel events the orbit radius is within
    [0.2, 1.0] in [sew_predictive.jsx] and within [0.22, 0.9] in the
    cutaway viewer, and the polar angle is within [0.15, PI - 0.15] in
    both. *)
Theorem camera_clamp (events : list Orbit.event) :
  let a := Orbit.sph (Orbit.run SewPredictive.radius_min
                        SewPredictive.radius_max events
                        (Orbit.initial SewPredictive.camera_position)) in
  let b := Orbit.sph (Orbit.run Readme.radius_min Readme.radius_max events
                        (Orbit.initial Readme.camera_position)) in
  (0.2 <= Orbit.radius a <= 1.0 /\ 0.15 <= Orbit.phi a <= PI - 0.15) /\
  (0.22 <= Orbit.radius b <= 0.9 /\ 0.15 <= Orbit.phi b <= PI - 0.15).
Proof.
  split.
  - apply (run_in_bounds SewPredictive.radius_min SewPredictive.radius_max).
    + unfold SewPredictive.radius_min, SewPredictive.radius_max. lra.
    + apply initial_in_bounds_SewPredictive.
  - apply (run_in_bounds Readme.radius_min Readme.radius_max).
    + unfold Readme.radius_min, Readme.radius_max. lra.
    + apply initial_in_bounds_Readme.
Qed.

(** ** The highlight pass *)

Section HighlightPass.
Import Scene.

Variable guard : mesh -> bool.
Variables (highlightMat : ident) (origMats : gmap ident ident).
Variable hid : option string.

#[local] Abbreviation visit :=
  (highlight_with guard highlightMat origMats hid).
#[local] Abbreviation selected := (Scene.selected hid).
#[local] Abbreviation write_of :=
  (Scene.write_of guard highlightMat origMats hid).
#[local] Abbreviation last_write :=
  (Scene.last_write guard highlightMat origMats hid).

Lemma visit_lookup (c : Object3D) (mats : gmap ident ident) (i : ident) :
  visit mats c !! i
  = match write_of c i with Some x => Some x | None => mats !! i end.
Proof.
  unfold visit, highlight_with, write_of, selected, restore.
  destruct (isMesh c) as [m|]; [| reflexivity].
  destruct (guard m); simpl; [| reflexivity].
  destruct (decide (oid m = i)) as [->|Hne].
  - rewrite bool_decide_eq_true_2 by reflexivity.
    destruct (truthy hid && strict_eq (compId m) hid).
    + apply lookup_insert_eq.
    + destruct (origMats !! i) as [orig|] eqn:Ho.
      * apply lookup_insert_eq.
      * reflexivity.
  - rewrite bool_decide_eq_false_2 by exact Hne.
    destruct (truthy hid && strict_eq (compId m) hid).
    + apply lookup_insert_ne, Hne.
    + destruct (origMats !! oid m); [apply lookup_insert_ne, Hne |].
      reflexivity.
Qed.

Lemma pass_lookup (objs : list Object3D) (mats : gmap ident ident)
    (i : ident) :
  fold_left visit objs mats !! i
  = match last_write objs i with Some x => Some x | None => mats !! i end.
Proof.
  revert mats. induction objs as [|c cs IH]; intros mats; simpl.
  - reflexivity.
  - rewrite IH. destruct (last_write cs i); [reflexivity |].
    apply visit_lookup.
Qed.

(** Running the pass again changes nothing, whatever the objects and
    the materials are. *)
Lemma pass_idempotent (objs : list Object3D) (mats : gmap ident ident) :
  fold_left visit objs (fold_left visit objs mats)
  = fold_left visit objs mats.
Proof.
  apply map_eq. intros i. rewrite !pass_lookup.
  destruct (last_write objs i); reflexivity.
Qed.

Lemma last_write_absent (objs : list Object3D) (i : ident) :
  i ∉ map oid (omap isMesh objs) -> last_write objs i = None.
Proof.
  induction objs as [|c cs IH]; intros Hi; simpl; [reflexivity |].
  unfold write_of. simpl in Hi.
  destruct (isMesh c) as [m|]; simpl in Hi.
  - apply not_elem_of_cons in Hi as [Hne Hi].
    rewrite (IH Hi).
    rewrite (bool_decide_eq_false_2 (oid m = i)) by congruence.
    now rewrite andb_false_r.
  - now rewrite (IH Hi).
Qed.

(** With distinct meshes, one pass leaves on every mesh the highlight
    material if the mesh is selected and the recorded original if not. *)
Lemma last_write_mesh (objs : list Object3D) (m : mesh) :
  NoDup (map oid (omap isMesh objs)) ->
  m ∈ omap isMesh objs ->
  guard m = true ->
  origMats !! oid m = Some (material0 m) ->
  last_write objs (oid m)
  = Some (if selected m then highlightMat else material0 m).
Proof.
  intros Hnd Hin Hg Ho.
  induction objs as [|c cs IH]; simpl in *; [now apply elem_of_nil in Hin |].
  unfold write_of.
  destruct (isMesh c) as [m'|]; simpl in *.
  - apply NoDup_cons in Hnd as [Hfresh Hnd].
    apply elem_of_cons in Hin as [->|Hin].
    + rewrite (last_write_absent cs (oid m') Hfresh).
      rewrite Hg, bool_decide_eq_true_2 by reflexivity. simpl.
      destruct (selected m'); [reflexivity | exact Ho].
    + now rewrite (IH Hnd Hin).
  - now rewrite (IH Hnd Hin).
Qed.

End HighlightPass.

(** ** The map of original materials *)

Section OrigMats.
Import Scene.

Lemma origMats_fold_absent (objs : list Object3D)
    (acc : gmap ident ident) (i : ident) :
  i ∉ map oid (omap isMesh objs) ->
  fold_left origMats_visit objs acc !! i = acc !! i.
Proof.
  revert acc. induction objs as [|c cs IH]; intros acc Hi; simpl.
  - reflexivity.
  - unfold origMats_visit at 2. simpl in Hi.
    destruct (isMesh c) as [m|]; simpl in Hi.
    + apply not_elem_of_cons in Hi as [Hne Hi].
      rewrite (IH _ Hi). apply lookup_insert_ne. congruence.
    + apply (IH _ Hi).
Qed.

(** Every mesh of the traversal is a key of the map. *)
Lemma origMats_fold_key (objs : list Object3D) (acc : gmap ident ident)
    (i : ident) :
  i ∈ map oid (omap isMesh objs) ->
  is_Some (fold_left origMats_visit objs acc !! i).
Proof.
  revert acc. induction objs as [|c cs IH]; intros acc Hin; simpl in *.
  - now apply elem_of_nil in Hin.
  - unfold origMats_visit at 2.
    destruct (isMesh c) as [m'|]; simpl in *; [| now apply IH].
    destruct (decide (i ∈ map oid (omap isMesh cs))) as [Hd|Hd].
    + now apply IH.
    + apply elem_of_cons in Hin as [->|Hin]; [| contradiction].
      rewrite (origMats_fold_absent _ _ _ Hd), lookup_insert_eq. eauto.
Qed.

(** With distinct meshes, the value recorded for a mesh is the material
    it was constructed with. *)
Lemma origMats_fold_value (objs : list Object3D)
    (acc : gmap ident ident) (m : mesh) :
  NoDup (map oid (omap isMesh objs)) ->
  m ∈ omap isMesh objs ->
  fold_left origMats_visit objs acc !! oid m = Some (material0 m).
Proof.
  revert acc. induction objs as [|c cs IH]; intros acc Hnd Hin; simpl in *.
  - now apply elem_of_nil in Hin.
  - unfold origMats_visit at 2.
    destruct (isMesh c) as [m'|]; simpl in *; [| now apply IH].
    apply NoDup_cons in Hnd as [Hfresh Hnd].
    apply elem_of_cons in Hin as [->|Hin]; [| now apply IH].
    rewrite (origMats_fold_absent _ _ _ Hfresh). apply lookup_insert_eq.
Qed.

(** An object that is not a mesh of the traversal is not a key. *)
Lemma build_origMats_absent (motor : Object3D) (i : ident) :
  i ∉ map oid (meshes motor) -> build_origMats motor !! i = None.
Proof.
  intros Hi. unfold build_origMats.
  rewrite (origMats_fold_absent _ _ _ Hi). apply lookup_empty.
Qed.

Lemma restore_recorded (origMats : gmap ident ident) (m : mesh)
    (mats : gmap ident ident) :
  origMats !! oid m = Some (material0 m) ->
  restore origMats m mats = <[oid m := material0 m]> mats.
Proof. intros H. unfold restore. now rewrite H. Qed.

End OrigMats.

(** ** Facts about the two built scenes *)

Lemma meshes_distinct_SewPredictive :
  NoDup (map Scene.oid (Scene.meshes SewPredictive.motor)).
Proof. apply (bool_decide_unpack _). vm_compute. exact I. Qed.

Lemma meshes_distinct_Readme :
  NoDup (map Scene.oid (Scene.meshes Readme.motor)).
Proof. apply (bool_decide_unpack _). vm_compute. exact I. Qed.

Lemma meshes_tagged_SewPredictive :
  Forall Scene.well_tagged (Scene.meshes SewPredictive.motor).
Proof.
  apply Forall_forall. intros m Hm. split.
  - revert m Hm. apply Forall_forall.
    apply (bool_decide_unpack _). vm_compute. exact I.
  - revert m Hm. apply Forall_forall.
    apply (bool_decide_unpack _). vm_compute. exact I.
Qed.

Lemma meshes_tagged_Readme :
  Forall Scene.well_tagged (Scene.meshes Readme.motor).
Proof.
  apply Forall_forall. intros m Hm. split.
  - revert m Hm. apply Forall_forall.
    apply (bool_decide_unpack _). vm_compute. exact I.
  - revert m Hm. apply Forall_forall.
    apply (bool_decide_unpack _). vm_compute. exact I.
Qed.

(** For a mesh with one of the eight ids, the condition of the highlight
    branch, [hid && c.userData.compId === hid], says that the selection is
    the mesh's id. *)
Lemma selected_iff (hid : option string) (m : Scene.mesh) :
  Scene.compId m ∈ Selection.COMPONENT_IDS ->
  Scene.selected hid m = bool_decide (hid = Some (Scene.compId m)).
Proof.
  intros Htag. unfold Scene.selected, strict_eq.
  destruct (decide (hid = Some (Scene.compId m))) as [->|Hne].
  - rewrite bool_decide_eq_true_2 by reflexivity.
    rewrite andb_true_r. simpl.
    unfold Selection.COMPONENT_IDS in Htag.
    repeat (apply elem_of_cons in Htag as [->|Htag]; [reflexivity |]).
    now apply elem_of_nil in Htag.
  - rewrite bool_decide_eq_false_2 by exact Hne. apply andb_false_r.
Qed.

(** The two highlight callbacks are instances of the general form. *)
Lemma highlight_visit_eq_SewPredictive (hid : option string) :
  SewPredictive.highlight_visit hid
  = Scene.highlight_with (fun _ => true) SewPredictive.highlightMat
      SewPredictive.origMats hid.
Proof. reflexivity. Qed.

Lemma highlight_visit_eq_Readme (hid : option string) :
  Readme.highlight_visit hid
  = Scene.highlight_with (fun m => negb (Scene.isLabel m)) Readme.mHLIGHT
      Readme.origMats hid.
Proof. reflexivity. Qed.

Lemma origMats_recorded_SewPredictive (m : Scene.mesh) :
  m ∈ Scene.meshes SewPredictive.motor ->
  SewPredictive.origMats !! Scene.oid m = Some (Scene.material0 m).
Proof.
  apply origMats_fold_value, meshes_distinct_SewPredictive.
Qed.

Lemma origMats_recorded_Readme (m : Scene.mesh) :
  m ∈ Scene.meshes Readme.motor ->
  Readme.origMats !! Scene.oid m = Some (Scene.material0 m).
Proof.
  apply origMats_fold_value, meshes_distinct_Readme.
Qed.

Lemma tagged_SewPredictive (m : Scene.mesh) :
  m ∈ Scene.meshes SewPredictive.motor -> Scene.well_tagged m.
Proof. apply Forall_forall, meshes_tagged_SewPredictive. Qed.

Lemma tagged_Readme (m : Scene.mesh) :
  m ∈ Scene.meshes Readme.motor -> Scene.well_tagged m.
Proof. apply Forall_forall, meshes_tagged_Readme. Qed.

(** The first mesh of each scene, for use as a concrete instance. *)
Lemma housingMesh_in_SewPredictive :
  {| Scene.oid := ("housingMesh", 0%nat); Scene.geometry := Scene.Cylinder;
     Scene.compId := "housing"; Scene.isLabel := false;
     Scene.material0 := SewPredictive.housing; Scene.pos := (0, 0, 0) |}
  ∈ Scene.meshes SewPredictive.motor.
Proof. apply list_elem_of_here. Qed.

Lemma housingMesh_in_Readme :
  {| Scene.oid := ("housingMesh", 0%nat); Scene.geometry := Scene.Buffer;
     Scene.compId := "housing"; Scene.isLabel := false;
     Scene.material0 := Readme.mHousing; Scene.pos := (0, 0, 0) |}
  ∈ Scene.meshes Readme.motor.
Proof. apply list_elem_of_here. Qed.

(** C3: after one highlight pass with selection [s], from any material
    assignment, a mesh of the motor group has the shared highlight
    material if [s] is its component id, and otherwise the material that
    [origMats] recorded for it when the scene was built, which is the
    material the mesh was constructed with. In both viewers. *)
Theorem highlight_pass_result (s : option string)
    (matsA matsB : gmap ident ident) (a b : Scene.mesh) :
  a ∈ Scene.meshes SewPredictive.motor ->
  b ∈ Scene.meshes Readme.motor ->
  (SewPredictive.highlight_pass s matsA !! Scene.oid a
   = (if bool_decide (s = Some (Scene.compId a))
      then Some SewPredictive.highlightMat
      else SewPredictive.origMats !! Scene.oid a) /\
   SewPredictive.origMats !! Scene.oid a = Some (Scene.material0 a)) /\
  (Readme.highlight_pass s matsB !! Scene.oid b
   = (if bool_decide (s = Some (Scene.compId b))
      then Some Readme.mHLIGHT
      else Readme.origMats !! Scene.oid b) /\
   Readme.origMats !! Scene.oid b = Some (Scene.material0 b)).
Proof.
  intros Ha Hb.
  pose proof (origMats_recorded_SewPredictive a Ha) as HoA.
  pose proof (origMats_recorded_Readme b Hb) as HoB.
  destruct (tagged_SewPredictive a Ha) as [HtA _].
  destruct (tagged_Readme b Hb) as [HtB HlB].
  split; split; try assumption.
  - unfold SewPredictive.highlight_pass.
    rewrite highlight_visit_eq_SewPredictive, pass_lookup.
    rewrite (last_write_mesh _ _ _ _ _ a meshes_distinct_SewPredictive Ha
               eq_refl HoA).
    rewrite (selected_iff s a HtA), HoA.
    now destruct (bool_decide (s = Some (Scene.compId a))).
  - unfold Readme.highlight_pass.
    rewrite highlight_visit_eq_Readme, pass_lookup.
    rewrite (last_write_mesh _ _ _ _ _ b meshes_distinct_Readme Hb).
    + rewrite (selected_iff s b HtB), HoB.
      now destruct (bool_decide (s = Some (Scene.compId b))).
    + now rewrite HlB.
    + exact HoB.
Qed.

Lemma highlight_pass_result_witness :
  let a := {| Scene.oid := ("housingMesh", 0%nat);
              Scene.geometry := Scene.Cylinder;
              Scene.compId := "housing"; Scene.isLabel := false;
              Scene.material0 := SewPredictive.housing;
              Scene.pos := (0, 0, 0) |} in
  let b := {| Scene.oid := ("housingMesh", 0%nat);
              Scene.geometry := Scene.Buffer;
              Scene.compId := "housing"; Scene.isLabel := false;
              Scene.material0 := Readme.mHousing;
              Scene.pos := (0, 0, 0) |} in
  let s := Some "housing"%string in
  (SewPredictive.highlight_pass s ∅ !! Scene.oid a
   = (if bool_decide (s = Some (Scene.compId a))
      then Some SewPredictive.highlightMat
      else SewPredictive.origMats !! Scene.oid a) /\
   SewPredictive.origMats !! Scene.oid a = Some (Scene.material0 a)) /\
  (Readme.highlight_pass s ∅ !! Scene.oid b
   = (if bool_decide (s = Some (Scene.compId b))
      then Some Readme.mHLIGHT
      else Readme.origMats !! Scene.oid b) /\
   Readme.origMats !! Scene.oid b = Some (Scene.material0 b)).
Proof.
  intros a b s. apply (highlight_pass_result s ∅ ∅ a b).
  - apply list_elem_of_here.
  - apply list_elem_of_here.
Defined.

(** C8: the highlight pass is idempotent. For every selection and every
    material assignment, a second pass with the same selection leaves the
    assignment of the first pass unchanged, in both viewers. *)
Theorem highlight_pass_idempotent (s : option string)
    (mats : gmap ident ident) :
  SewPredictive.highlight_pass s (SewPredictive.highlight_pass s mats)
  = SewPredictive.highlight_pass s mats /\
  Readme.highlight_pass s (Readme.highlight_pass s mats)
  = Readme.highlight_pass s mats.
Proof.
  split.
  - unfold SewPredictive.highlight_pass.
    rewrite highlight_visit_eq_SewPredictive. apply pass_idempotent.
  - unfold Readme.highlight_pass.
    rewrite highlight_visit_eq_Readme. apply pass_idempotent.
Qed.

(** The frame callback changes the viewer's stores only: the graph below
    [motor] and [origMats] are the constants fixed when the scene was
    built, so a pass in any later frame traverses the same meshes. *)
Lemma animate_material_SewPredictive (hid : option string)
    (v : Scene.viewer) :
  Scene.material (SewPredictive.animate hid v)
  = SewPredictive.highlight_pass hid (Scene.material v).
Proof. reflexivity. Qed.

Lemma animate_material_Readme (hid : option string) (v : Scene.viewer) :
  Scene.material (Readme.animate hid v)
  = Readme.highlight_pass hid (Scene.material v).
Proof. reflexivity. Qed.

(** C9: every mesh that the traversal of [motor] reaches is a key of
    [origMats], with the material the mesh was constructed with as its
    value; so in every frame, whatever the current materials are, the
    restore branch assigns that recorded material and never falls back to
    the current one. In both viewers. *)
Theorem origMats_total (a b : Scene.mesh) :
  a ∈ Scene.meshes SewPredictive.motor ->
  b ∈ Scene.meshes Readme.motor ->
  (SewPredictive.origMats !! Scene.oid a = Some (Scene.material0 a) /\
   forall hids : list (option string),
     let mats := Scene.material
                   (SewPredictive.frames hids SewPredictive.initial) in
     Scene.restore SewPredictive.origMats a mats
     = <[Scene.oid a := Scene.material0 a]> mats) /\
  (Readme.origMats !! Scene.oid b = Some (Scene.material0 b) /\
   forall hids : list (option string),
     let mats := Scene.material (Readme.frames hids Readme.initial) in
     Scene.restore Readme.origMats b mats
     = <[Scene.oid b := Scene.material0 b]> mats).
Proof.
  intros Ha Hb.
  pose proof (origMats_recorded_SewPredictive a Ha) as HoA.
  pose proof (origMats_recorded_Readme b Hb) as HoB.
  split; (split; [assumption |]); intros hids mats;
    now apply restore_recorded.
Qed.

Lemma origMats_total_witness :
  let a := {| Scene.oid := ("housingMesh", 0%nat);
              Scene.geometry := Scene.Cylinder;
              Scene.compId := "housing"; Scene.isLabel := false;
              Scene.material0 := SewPredictive.housing;
              Scene.pos := (0, 0, 0) |} in
  let b := {| Scene.oid := ("housingMesh", 0%nat);
              Scene.geometry := Scene.Buffer;
              Scene.compId := "housing"; Scene.isLabel := false;
              Scene.material0 := Readme.mHousing;
              Scene.pos := (0, 0, 0) |} in
  (SewPredictive.origMats !! Scene.oid a = Some (Scene.material0 a) /\
   forall hids : list (option string),
     let mats := Scene.material
                   (SewPredictive.frames hids SewPredictive.initial) in
     Scene.restore SewPredictive.origMats a mats
     = <[Scene.oid a := Scene.material0 a]> mats) /\
  (Readme.origMats !! Scene.oid b = Some (Scene.material0 b) /\
   forall hids : list (option string),
     let mats := Scene.material (Readme.frames hids Readme.initial) in
     Scene.restore Readme.origMats b mats
     = <[Scene.oid b := Scene.material0 b]> mats).
Proof.
  intros a b. apply (origMats_total a b).
  - apply list_elem_of_here.
  - apply list_elem_of_here.
Defined.

(** The keys of [origMats] are exactly the meshes below [motor]. *)
Lemma origMats_keys (motor : Scene.Object3D) (i : ident) :
  is_Some (Scene.build_origMats motor !! i)
  <-> i ∈ map Scene.oid (Scene.meshes motor).
Proof.
  split.
  - intros Hs.
    destruct (decide (i ∈ map Scene.oid (Scene.meshes motor))) as [|Hn];
      [assumption |].
    rewrite (build_origMats_absent _ _ Hn) in Hs. now destruct Hs.
  - apply origMats_fold_key.
Qed.

(** ** Rotation *)

Lemma bbGroups_Readme :
  Readme.bbGroups = [("ballG", 0%nat); ("ballG", 1%nat)].
Proof. vm_compute. reflexivity. Qed.

Lemma animate_rotation_SewPredictive (hid : option string)
    (v : Scene.viewer) :
  Scene.rotation_z (SewPredictive.animate hid v)
  = <[SewPredictive.rotorG :=
        SewPredictive.rotor_angle (Scene.time v + 0.016)]>
      (Scene.rotation_z v).
Proof. reflexivity. Qed.

Lemma animate_rotation_Readme (hid : option string) (v : Scene.viewer) :
  Scene.rotation_z (Readme.animate hid v)
  = <[("ballG", 1%nat) := (Scene.time v + 0.016) * Readme.angV * 0.44]>
      (<[("ballG", 0%nat) := (Scene.time v + 0.016) * Readme.angV * 0.44]>
         (<[Readme.fanG := (Scene.time v + 0.016) * Readme.angV]>
            (<[Readme.rotorG := Readme.rotor_angle (Scene.time v + 0.016)]>
               (Scene.rotation_z v)))).
Proof. unfold Readme.animate. rewrite bbGroups_Readme. reflexivity. Qed.

(** *** The rotor angle in double precision *)








(** ** Fan and rotor in world space *)

(** Rotations about z compose by adding their angles, which is what
    [Scene.world_rotation_z] sums along the path from the root. *)
Lemma rotate_z_compose (a b : R) (p : R * R) :
  Scene.rotate_z a (Scene.rotate_z b p) = Scene.rotate_z (a + b) p.
Proof.
  destruct p as [x y]. unfold Scene.rotate_z. simpl.
  rewrite cos_plus, sin_plus. f_equal; ring.
Qed.

Section WorldAngles.
Import Scene.
Variable rot : gmap ident R.

Lemma rotor_world_SewPredictive :
  world_rotation_z rot 0 SewPredictive.motor SewPredictive.rotorG
  = Some (0 + rotation_of rot ("motor", 0%nat)
          + rotation_of rot SewPredictive.rotorG).
Proof. reflexivity. Qed.

Lemma fan_world_SewPredictive :
  world_rotation_z rot 0 SewPredictive.motor SewPredictive.fanG
  = Some (0 + rotation_of rot ("motor", 0%nat)
          + rotation_of rot SewPredictive.rotorG
          + rotation_of rot SewPredictive.fanG).
Proof. reflexivity. Qed.

Lemma rotor_world_Readme :
  world_rotation_z rot 0 Readme.motor Readme.rotorG
  = Some (0 + rotation_of rot ("motor", 0%nat)
          + rotation_of rot Readme.rotorG).
Proof. reflexivity. Qed.

Lemma fan_world_Readme :
  world_rotation_z rot 0 Readme.motor Readme.fanG
  = Some (0 + rotation_of rot ("motor", 0%nat)
          + rotation_of rot Readme.rotorG
          + rotation_of rot Readme.fanG).
Proof. reflexivity. Qed.

End WorldAngles.

Lemma frames_only_rotor_turns (hids : list (option string))
    (v : Scene.viewer) :
  SewPredictive.only_rotor_turns v ->
  SewPredictive.only_rotor_turns (SewPredictive.frames hids v).
Proof.
  revert v. induction hids as [|hid hids IH]; intros v Hv; simpl.
  - exact Hv.
  - apply IH. destruct Hv as [Hm Hf]. unfold SewPredictive.only_rotor_turns.
    rewrite animate_rotation_SewPredictive.
    rewrite !lookup_insert_ne by discriminate. now split.
Qed.

(** In [sew_predictive.jsx] the fan follows the rotor in every frame: its
    world angle is the rotor's, [time * (1740/60) * 2*PI]. *)
Lemma fan_follows_rotor_SewPredictive (hids : list (option string))
    (hid : option string) :
  let v := SewPredictive.animate hid
             (SewPredictive.frames hids SewPredictive.initial) in
  SewPredictive.fan_world v = SewPredictive.rotor_world v /\
  SewPredictive.rotor_world v
  = Some (Scene.time v * ((1740 / 60) * PI * 2)).
Proof.
  intros v.
  assert (Hinv : SewPredictive.only_rotor_turns
                   (SewPredictive.frames hids SewPredictive.initial)).
  { apply frames_only_rotor_turns. split; apply lookup_empty. }
  destruct Hinv as [Hm Hf].
  unfold SewPredictive.fan_world, SewPredictive.rotor_world.
  rewrite fan_world_SewPredictive, rotor_world_SewPredictive.
  subst v. rewrite animate_rotation_SewPredictive.
  unfold Scene.rotation_of.
  rewrite lookup_insert_eq, !lookup_insert_ne by discriminate.
  rewrite Hm, Hf. simpl. unfold SewPredictive.rotor_angle.
  split; f_equal; lra.
Qed.

(** In the cutaway viewer the driver never turns [motor]. *)
Lemma frames_motor_fixed_Readme (hids : list (option string))
    (v : Scene.viewer) :
  Scene.rotation_z v !! ("motor", 0%nat) = None ->
  Scene.rotation_z (Readme.frames hids v) !! ("motor", 0%nat) = None.
Proof.
  revert v. induction hids as [|hid hids IH]; intros v Hv; simpl.
  - exact Hv.
  - apply IH. rewrite animate_rotation_Readme.
    now rewrite !lookup_insert_ne by discriminate.
Qed.

(** In the cutaway viewer [fanG] is a child of [rotorG] and is given the
    rotor's angle as its own local rotation as well: in every frame its
    world angle is twice the rotor's. *)
Lemma fan_world_double_Readme (hids : list (option string))
    (hid : option string) :
  let v := Readme.animate hid (Readme.frames hids Readme.initial) in
  Readme.rotor_world v = Some (Scene.time v * ((1740 / 60) * PI * 2)) /\
  Readme.fan_world v = Some (2 * (Scene.time v * ((1740 / 60) * PI * 2))).
Proof.
  intros v.
  assert (Hm : Scene.rotation_z (Readme.frames hids Readme.initial)
               !! ("motor", 0%nat) = None).
  { apply frames_motor_fixed_Readme, lookup_empty. }
  unfold Readme.fan_world, Readme.rotor_world.
  rewrite fan_world_Readme, rotor_world_Readme.
  subst v. rewrite animate_rotation_Readme.
  unfold Scene.rotation_of.
  rewrite !(lookup_insert_ne _ ("ballG", 1%nat)) by discriminate.
  rewrite !(lookup_insert_ne _ ("ballG", 0%nat)) by discriminate.
  rewrite lookup_insert_eq.
  rewrite !(lookup_insert_ne _ Readme.fanG) by discriminate.
  rewrite lookup_insert_eq, lookup_insert_ne by discriminate.
  rewrite Hm. simpl. unfold Readme.rotor_angle, Readme.angV.
  split; f_equal; lra.
Qed.

(** C4 fails in the cutaway viewer. After the first frame (time 0.016)
    the rotor group is at 0.016 * (1740/60) * 2*PI in world space and the
    fan group at twice that angle; the two angles do not differ by a
    whole number of turns, and the two rotations move the point (1, 0)
    to different places. *)
Theorem fan_world_first_frame_Readme :
  let v := Readme.animate None Readme.initial in
  let rotor := 0.016 * ((1740 / 60) * PI * 2) in
  Readme.rotor_world v = Some rotor /\
  Readme.fan_world v = Some (2 * rotor) /\
  (forall k : Z, 2 * rotor - rotor <> IZR k * (2 * PI)) /\
  Scene.rotate_z (2 * rotor) (1, 0) <> Scene.rotate_z rotor (1, 0).
Proof.
  intros v rotor.
  pose proof (fan_world_double_Readme [] None) as H. cbv zeta in H.
  change (Readme.frames [] Readme.initial) with Readme.initial in H.
  fold v in H.
  change (Scene.time v) with (0 + 0.016) in H.
  replace (0 + 0.016) with 0.016 in H by lra.
  destruct H as [Hr Hf].
  pose proof PI_digits as HPI.
  split; [exact Hr |]. split; [exact Hf |]. split.
  - intros k Hk. subst rotor.
    assert (Hk' : IZR k = 0.464) by nra.
    assert (H0 : (0 < k)%Z) by (apply lt_IZR; lra).
    assert (H1 : (k < 1)%Z) by (apply lt_IZR; lra).
    lia.
  - unfold Scene.rotate_z. simpl. intros Heq.
    apply (f_equal snd) in Heq. simpl in Heq.
    assert (Hpos : 0 < sin rotor) by (apply sin_gt_0; subst rotor; lra).
    assert (Hneg : sin (2 * rotor) < 0)
      by (apply sin_lt_0; subst rotor; lra).
    lra.
Qed.

(** ** The coil pulse *)

(** A sinusoid of time reaches its minimum at some time that is not
    negative, whatever its phase. *)
Lemma sin_trough (w ph : R) :
  0 < w -> exists t : R, 0 <= t /\ sin (t * w + ph) = -1.
Proof.
  intros Hw. pose proof PI_digits as HPI.
  destruct (INR_archimed (2 * PI) (ph - 3 * (PI / 2)) ltac:(lra))
    as [n Hn].
  exists ((3 * (PI / 2) + 2 * INR n * PI - ph) / w). split.
  - apply Rmult_le_pos; [lra |].
    apply Rlt_le, Rinv_0_lt_compat, Hw.
  - replace ((3 * (PI / 2) + 2 * INR n * PI - ph) / w * w + ph)
      with (3 * (PI / 2) + 2 * INR n * PI) by (field; lra).
    rewrite sin_period. apply sin_3PI2.
Qed.

Section PulsePass.
Import Scene.

Variable cond : mesh -> bool.
Variable origMats : gmap ident ident.
Variable value : mesh -> R.

#[local] Abbreviation pulse_with := (Scene.pulse_with cond origMats value).
#[local] Abbreviation writes_to := (Scene.writes_to cond origMats).
#[local] Abbreviation last_pulse := (Scene.last_pulse cond origMats).

Lemma pulse_with_lookup (c : Object3D) (em : gmap ident R) (mat : ident) :
  pulse_with em c !! mat
  = match (if writes_to mat c then isMesh c else None) with
    | Some m => Some (value m)
    | None => em !! mat
    end.
Proof.
  unfold pulse_with, writes_to.
  destruct (isMesh c) as [m|]; [| reflexivity].
  destruct (cond m); simpl; [| reflexivity].
  destruct (origMats !! oid m) as [orig|] eqn:Ho.
  - destruct (decide (orig = mat)) as [->|Hne].
    + rewrite bool_decide_eq_true_2 by reflexivity.
      apply lookup_insert_eq.
    + rewrite bool_decide_eq_false_2 by congruence.
      apply lookup_insert_ne, Hne.
  - now rewrite bool_decide_eq_false_2 by discriminate.
Qed.

Lemma pulse_pass_lookup (objs : list Object3D) (em : gmap ident R)
    (mat : ident) :
  fold_left pulse_with objs em !! mat
  = match last_pulse objs mat with
    | Some m => Some (value m)
    | None => em !! mat
    end.
Proof.
  revert em. induction objs as [|c cs IH]; intros em; simpl.
  - reflexivity.
  - rewrite IH. destruct (last_pulse cs mat); [reflexivity |].
    apply pulse_with_lookup.
Qed.

Lemma last_pulse_exists (objs : list Object3D) (mat : ident) :
  existsb (writes_to mat) objs = true -> is_Some (last_pulse objs mat).
Proof.
  induction objs as [|c cs IH]; simpl; [discriminate |].
  intros H. destruct (last_pulse cs mat); [eauto |].
  destruct (writes_to mat c) eqn:Hw.
  - unfold writes_to in Hw. destruct (isMesh c); [eauto | discriminate].
  - simpl in H. destruct (IH H) as [m Hm]. discriminate.
Qed.

End PulsePass.

Lemma pulse_visit_eq_SewPredictive (time : R) :
  SewPredictive.pulse_visit time
  = Scene.pulse_with SewPredictive.is_winding SewPredictive.origMats
      (SewPredictive.pulse_value time).
Proof. reflexivity. Qed.

Lemma pulse_visit_eq_Readme (time : R) :
  Readme.pulse_visit time
  = Scene.pulse_with Readme.is_copper Readme.origMats (Readme.pulse_value time).
Proof. reflexivity. Qed.

Lemma pulse_value_range_SewPredictive (time : R) (m : Scene.mesh) :
  -0.05 <= SewPredictive.pulse_value time m <= 0.45.
Proof.
  unfold SewPredictive.pulse_value. destruct (Scene.pos m) as [[x y] z].
  pose proof (SIN_bound (time * 25 + (y + z) * 25)). lra.
Qed.

Lemma pulse_value_range_Readme (time : R) (m : Scene.mesh) :
  -0.08 <= Readme.pulse_value time m <= 0.36.
Proof.
  unfold Readme.pulse_value. destruct (Scene.pos m) as [[x y] z].
  pose proof (SIN_bound (time * 18 + Math_atan2 x y * 3)). lra.
Qed.

Lemma pulse_value_negative_SewPredictive (m : Scene.mesh) :
  exists time : R,
    0 <= time /\ SewPredictive.pulse_value time m = -0.05.
Proof.
  unfold SewPredictive.pulse_value. destruct (Scene.pos m) as [[x y] z].
  destruct (sin_trough 25 ((y + z) * 25) ltac:(lra)) as (t & Ht & Hsin).
  exists t. split; [exact Ht |]. rewrite Hsin. lra.
Qed.

Lemma pulse_value_negative_Readme (m : Scene.mesh) :
  exists time : R, 0 <= time /\ Readme.pulse_value time m = -0.08.
Proof.
  unfold Readme.pulse_value. destruct (Scene.pos m) as [[x y] z].
  destruct (sin_trough 18 (Math_atan2 x y * 3) ltac:(lra))
    as (t & Ht & Hsin).
  exists t. split; [exact Ht |]. rewrite Hsin. lra.
Qed.

(** The last winding mesh the traversal reaches writes last: coil 35 in
    [sew_predictive.jsx], the copper loop 11 of the second end in the
    cutaway viewer. *)
Lemma last_writer_SewPredictive :
  Scene.last_pulse SewPredictive.is_winding SewPredictive.origMats
    (Scene.traverse SewPredictive.motor) SewPredictive.coilMat
  = Scene.isMesh
      (let a := (INR 35 / 36) * PI * 2 in
       SewPredictive.mk "coil" 35 Scene.Torus SewPredictive.coilMat
         "stator_winding"
         (0, cos a * SewPredictive.stInR, sin a * SewPredictive.stInR)).
Proof. vm_compute. reflexivity. Qed.

Lemma last_writer_Readme :
  Scene.last_pulse Readme.is_copper Readme.origMats
    (Scene.traverse Readme.motor) Readme.mCoil
  = Scene.isMesh
      (let a := (INR 11 / INR Readme.END_LOOPS) * PI * 2 in
       let loopR := Readme.stInR - 0.014 in
       Readme.mk "copper" 23 Scene.Torus Readme.mCoil "stator_winding"
         (sin a * loopR, cos a * loopR, Readme.rL * 0.5 + 0.006)).
Proof. vm_compute. reflexivity. Qed.

(** After a pass the copper material holds the value of the last writer. *)
Lemma pulse_pass_copper_SewPredictive (time : R) (em : gmap ident R) :
  exists m : Scene.mesh,
    Scene.oid m = ("coil", 35%nat) /\
    Scene.pos m
    = (let a := (INR 35 / 36) * PI * 2 in
       (0, cos a * SewPredictive.stInR, sin a * SewPredictive.stInR)) /\
    SewPredictive.pulse_pass time em !! SewPredictive.coilMat
    = Some (SewPredictive.pulse_value time m).
Proof.
  eexists. split; [| split]; [| | unfold SewPredictive.pulse_pass;
    rewrite pulse_visit_eq_SewPredictive, pulse_pass_lookup,
      last_writer_SewPredictive; reflexivity]; reflexivity.
Qed.

Lemma pulse_pass_copper_Readme (time : R) (em : gmap ident R) :
  exists m : Scene.mesh,
    Scene.oid m = ("copper", 23%nat) /\
    Scene.pos m
    = (let a := (INR 11 / INR Readme.END_LOOPS) * PI * 2 in
       let loopR := Readme.stInR - 0.014 in
       (sin a * loopR, cos a * loopR, Readme.rL * 0.5 + 0.006)) /\
    Readme.pulse_pass time em !! Readme.mCoil
    = Some (Readme.pulse_value time m).
Proof.
  eexists. split; [| split]; [| | unfold Readme.pulse_pass;
    rewrite pulse_visit_eq_Readme, pulse_pass_lookup,
      last_writer_Readme; reflexivity]; reflexivity.
Qed.

(** A lower bound of the cosine near 0. *)
Lemma cos_lower (d : R) : -1 <= d <= 1 -> 1 - d * d / 2 <= cos d.
Proof.
  intros Hd. pose proof PI_digits as HPI.
  assert (Hcos : cos d = 1 - 2 * sin (d / 2) * sin (d / 2)).
  { rewrite <- cos_2a_sin. f_equal. lra. }
  rewrite Hcos.
  assert (Hs : sin (d / 2) * sin (d / 2) <= d / 2 * (d / 2)).
  { destruct (Rtotal_order 0 (d / 2)) as [Hp|[Hz|Hn]].
    - assert (sin (d / 2) < d / 2) by (apply sin_lt_x; lra).
      assert (0 < sin (d / 2)) by (apply sin_gt_0; lra).
      nra.
    - rewrite <- Hz, sin_0. lra.
    - assert (sin (- (d / 2)) < - (d / 2)) by (apply sin_lt_x; lra).
      assert (0 < sin (- (d / 2))) by (apply sin_gt_0; lra).
      rewrite sin_neg in *. nra. }
  lra.
Qed.

Lemma sin_near_trough (d : R) :
  -1 <= d <= 1 -> sin (3 * (PI / 2) + d) <= - (1 - d * d / 2).
Proof.
  intros Hd. rewrite sin_plus, sin_3PI2, cos_3PI2.
  pose proof (cos_lower d Hd). lra.
Qed.

(** The value written for coil 35 at the time of the seventh frame. *)
Lemma pulse_negative_coil35 (m : Scene.mesh) :
  Scene.pos m
  = (let a := (INR 35 / 36) * PI * 2 in
     (0, cos a * SewPredictive.stInR, sin a * SewPredictive.stInR)) ->
  SewPredictive.pulse_value (0.016 * 7) m < 0.
Proof.
  intros Hpos. unfold SewPredictive.pulse_value. rewrite Hpos.
  cbv zeta iota beta.
  set (a := INR 35 / 36 * PI * 2).
  pose proof PI_digits as HPI.
  assert (Ha : a = - (PI / 18) + 2 * INR 1 * PI).
  { subst a. replace (INR 35) with 35 by (simpl; lra). simpl. lra. }
  assert (Hc : cos a = cos (PI / 18))
    by (rewrite Ha, cos_period; apply cos_neg).
  assert (Hs : sin a = - sin (PI / 18))
    by (rewrite Ha, sin_period; apply sin_neg).
  rewrite Hc, Hs. unfold SewPredictive.stInR, SewPredictive.hR.
  assert (Hs1 : sin (PI / 18) < PI / 18) by (apply sin_lt_x; lra).
  assert (Hs0 : 0 < sin (PI / 18)) by (apply sin_gt_0; lra).
  assert (Hc1 : 1 - PI / 18 * (PI / 18) / 2 <= cos (PI / 18))
    by (apply cos_lower; lra).
  assert (Hc2 : cos (PI / 18) <= 1) by apply COS_bound.
  set (c := cos (PI / 18)) in *. set (s := sin (PI / 18)) in *.
  set (arg := 0.016 * 7 * 25
              + (c * (0.090 - 0.008) + - s * (0.090 - 0.008)) * 25).
  set (d := arg - 3 * (PI / 2)).
  assert (Hd : -0.26 <= d <= 0.26) by (subst d arg; nra).
  replace arg with (3 * (PI / 2) + d) by (subst d; lra).
  pose proof (sin_near_trough d ltac:(lra)). nra.
Qed.

(** The value written for the last copper loop at the time of the first
    frame. *)
Lemma pulse_negative_copper23 (m : Scene.mesh) :
  Scene.pos m
  = (let a := (INR 11 / INR Readme.END_LOOPS) * PI * 2 in
     let loopR := Readme.stInR - 0.014 in
     (sin a * loopR, cos a * loopR, Readme.rL * 0.5 + 0.006)) ->
  Readme.pulse_value 0.016 m < 0.
Proof.
  intros Hpos. unfold Readme.pulse_value. rewrite Hpos.
  cbv zeta iota beta.
  set (a := INR 11 / INR Readme.END_LOOPS * PI * 2).
  set (loopR := Readme.stInR - 0.014).
  pose proof PI_digits as HPI.
  assert (Ha : a = - (PI / 6) + 2 * INR 1 * PI).
  { subst a. unfold Readme.END_LOOPS.
    replace (INR 11) with 11 by (simpl; lra).
    replace (INR 12) with 12 by (simpl; lra). simpl. lra. }
  assert (Hc : cos a = cos (- (PI / 6))) by (rewrite Ha; apply cos_period).
  assert (Hs : sin a = sin (- (PI / 6))) by (rewrite Ha; apply sin_period).
  assert (Hcpos : 0 < cos (- (PI / 6))) by (apply cos_gt_0; lra).
  assert (HR : loopR = 0.066)
    by (subst loopR; unfold Readme.stInR, Readme.hR; lra).
  assert (Hat : Math_atan2 (sin a * loopR) (cos a * loopR) = - (PI / 6)).
  { unfold Math_atan2. rewrite Hc, Hs, HR.
    destruct (Rlt_dec 0 (cos (- (PI / 6)) * 0.066)) as [_|Hn]; [| nra].
    replace (sin (- (PI / 6)) * 0.066 / (cos (- (PI / 6)) * 0.066))
      with (tan (- (PI / 6))) by (unfold tan; field; lra).
    apply atan_tan. lra. }
  rewrite Hat.
  replace (0.016 * 18 + - (PI / 6) * 3)
    with (3 * (PI / 2) + 0.288 - 2 * INR 1 * PI) by (simpl; lra).
  assert (Hper : sin (3 * (PI / 2) + 0.288 - 2 * INR 1 * PI)
                 = sin (3 * (PI / 2) + 0.288)).
  { rewrite <- (sin_period (3 * (PI / 2) + 0.288 - 2 * INR 1 * PI) 1).
    f_equal. lra. }
  rewrite Hper.
  pose proof (sin_near_trough 0.288 ltac:(lra)). lra.
Qed.

Lemma time_frames_SewPredictive (hids : list (option string))
    (v : Scene.viewer) :
  Scene.time (SewPredictive.frames hids v)
  = Scene.time v + 0.016 * INR (length hids).
Proof.
  revert v. induction hids as [|hid hids IH]; intros v.
  - simpl. lra.
  - change (SewPredictive.frames (hid :: hids) v)
      with (SewPredictive.frames hids (SewPredictive.animate hid v)).
    rewrite IH.
    change (Scene.time (SewPredictive.animate hid v))
      with (Scene.time v + 0.016).
    change (length (hid :: hids)) with (S (length hids)).
    rewrite S_INR. lra.
Qed.

(** C10: at every time the intensity the coil pulse writes for a
    winding mesh is within [0.2 - 0.25, 0.2 + 0.25] in
    [sew_predictive.jsx] and within [0.14 - 0.22, 0.14 + 0.22] in the
    cutaway viewer, and so is the intensity of the copper material after
    every frame. Nothing clamps it at zero: the copper material has a
    negative intensity after the seventh frame of [sew_predictive.jsx]
    and after the first frame of the cutaway viewer. *)
Theorem coil_pulse_range :
  (forall (time : R) (m : Scene.mesh),
     -0.05 <= SewPredictive.pulse_value time m <= 0.45) /\
  (forall (time : R) (m : Scene.mesh),
     -0.08 <= Readme.pulse_value time m <= 0.36) /\
  (forall (hid : option string) (v : Scene.viewer), exists x : R,
     Scene.emissiveIntensity (SewPredictive.animate hid v)
     !! SewPredictive.coilMat = Some x /\
     0.2 - 0.25 <= x <= 0.2 + 0.25) /\
  (forall (hid : option string) (v : Scene.viewer), exists x : R,
     Scene.emissiveIntensity (Readme.animate hid v) !! Readme.mCoil
     = Some x /\
     0.14 - 0.22 <= x <= 0.14 + 0.22) /\
  (forall h1 h2 h3 h4 h5 h6 h7 : option string, exists x : R,
     Scene.emissiveIntensity
       (SewPredictive.frames [h1; h2; h3; h4; h5; h6; h7]
          SewPredictive.initial)
     !! SewPredictive.coilMat = Some x /\
     x < 0) /\
  (forall hid : option string, exists x : R,
     Scene.emissiveIntensity (Readme.animate hid Readme.initial)
     !! Readme.mCoil = Some x /\
     x < 0).
Proof.
  split; [exact pulse_value_range_SewPredictive |].
  split; [exact pulse_value_range_Readme |].
  split; [| split; [| split]].
  - intros hid v.
    destruct (pulse_pass_copper_SewPredictive (Scene.time v + 0.016)
                (Scene.emissiveIntensity v)) as (m & _ & _ & Hm).
    exists (SewPredictive.pulse_value (Scene.time v + 0.016) m).
    split; [exact Hm |].
    pose proof (pulse_value_range_SewPredictive (Scene.time v + 0.016) m).
    lra.
  - intros hid v.
    destruct (pulse_pass_copper_Readme (Scene.time v + 0.016)
                (Scene.emissiveIntensity v)) as (m & _ & _ & Hm).
    exists (Readme.pulse_value (Scene.time v + 0.016) m).
    split; [exact Hm |].
    pose proof (pulse_value_range_Readme (Scene.time v + 0.016) m). lra.
  - intros h1 h2 h3 h4 h5 h6 h7.
    set (v := SewPredictive.frames [h1; h2; h3; h4; h5; h6]
                SewPredictive.initial).
    change (SewPredictive.frames [h1; h2; h3; h4; h5; h6; h7]
              SewPredictive.initial)
      with (SewPredictive.animate h7 v).
    destruct (pulse_pass_copper_SewPredictive (Scene.time v + 0.016)
                (Scene.emissiveIntensity v)) as (m & _ & Hpos & Hm).
    exists (SewPredictive.pulse_value (Scene.time v + 0.016) m).
    split; [exact Hm |].
    replace (Scene.time v + 0.016) with (0.016 * 7).
    + apply pulse_negative_coil35, Hpos.
    + subst v. rewrite time_frames_SewPredictive.
      change (Scene.time SewPredictive.initial) with 0.
      change (length [h1; h2; h3; h4; h5; h6]) with 6%nat.
      replace (INR 6) with 6 by (simpl; lra). lra.
  - intros hid.
    destruct (pulse_pass_copper_Readme (0 + 0.016)
                (Scene.emissiveIntensity Readme.initial))
      as (m & _ & Hpos & Hm).
    exists (Readme.pulse_value (0 + 0.016) m).
    split; [exact Hm |].
    replace (0 + 0.016) with 0.016 by lra.
    apply pulse_negative_copper23, Hpos.
Qed.

(** * Further properties of the code *)

(** ** Mock sensor series *)

Lemma series_sample_bounds (u base noise x : R) :
  0 <= u < 1 -> 0 <= noise ->
  base - 0.9 * noise
  <= base + (u - 0.5) * noise + sin x * (noise * 0.4)
  <= base + 0.9 * noise.
Proof.
  intros Hu Hn. pose proof (SIN_bound x) as Hs. split; nra.
Qed.

Lemma series_sample_bounds_gen (u base noise x : R) :
  0 <= u < 1 -> 0 <= noise ->
  base - 0.9 * noise
  <= base + (u - 0.5) * noise + sin x * noise * 0.4
  <= base + 0.9 * noise.
Proof.
  intros Hu Hn. pose proof (SIN_bound x) as Hs. split; nra.
Qed.

(** X1: with random values in [0, 1) and a noise amplitude that is not
    negative, [generateSeries] returns [count] samples and every sample
    lies within 0.9 times the noise of the base value; so does [gen] of
    the cutaway viewer. *)
Theorem generateSeries_bounds (random : nat -> R) (base noise : R)
    (count : nat) :
  MockData.unit_interval random -> 0 <= noise ->
  (length (MockData.generateSeries random base noise count) = count /\
   Forall (fun v => base - 0.9 * noise <= v <= base + 0.9 * noise)
          (MockData.generateSeries random base noise count)) /\
  (length (MockData.gen random base noise count) = count /\
   Forall (fun v => base - 0.9 * noise <= v <= base + 0.9 * noise)
          (MockData.gen random base noise count)).
Proof.
  intros Hr Hn. unfold MockData.generateSeries, MockData.gen.
  split; split.
  - now rewrite length_map, length_seq.
  - apply Forall_forall. intros v Hv.
    apply list_elem_of_In, in_map_iff in Hv as (i & <- & _).
    apply series_sample_bounds; [apply Hr | exact Hn].
  - now rewrite length_map, length_seq.
  - apply Forall_forall. intros v Hv.
    apply list_elem_of_In, in_map_iff in Hv as (i & <- & _).
    apply series_sample_bounds_gen; [apply Hr | exact Hn].
Qed.

Lemma generateSeries_bounds_witness :
  (length (MockData.generateSeries (fun _ => 0.5) 2.8 3.2 60) = 60%nat /\
   Forall (fun v => 2.8 - 0.9 * 3.2 <= v <= 2.8 + 0.9 * 3.2)
          (MockData.generateSeries (fun _ => 0.5) 2.8 3.2 60)) /\
  (length (MockData.gen (fun _ => 0.5) 2.8 3.2 60) = 60%nat /\
   Forall (fun v => 2.8 - 0.9 * 3.2 <= v <= 2.8 + 0.9 * 3.2)
          (MockData.gen (fun _ => 0.5) 2.8 3.2 60)).
Proof.
  apply (generateSeries_bounds (fun _ => 0.5) 2.8 3.2 60).
  - intros i. lra.
  - lra.
Defined.

(** ** Registry and selection *)

Lemma selComp_none (table : list Registry.component) :
  Registry.selComp table None = None.
Proof.
  unfold Registry.selComp. induction table as [|c table IH].
  - reflexivity.
  - cbn [List.find].
    assert (H : strict_eq (Registry.id c) None = false)
      by (apply bool_decide_eq_false_2; discriminate).
    rewrite H. exact IH.
Qed.

Lemma selComp_found (table : list Registry.component)
    (c : Registry.component) :
  NoDup (map Registry.id table) -> In c table ->
  Registry.selComp table (Some (Registry.id c)) = Some c.
Proof.
  unfold Registry.selComp.
  induction table as [|d table IH]; intros Hnd Hin.
  - contradiction.
  - cbn [map] in Hnd. apply NoDup_cons in Hnd as [Hfresh Hnd].
    cbn [List.find]. destruct Hin as [->|Hin].
    + assert (H : strict_eq (Registry.id c) (Some (Registry.id c)) = true)
        by (apply bool_decide_eq_true_2; reflexivity).
      now rewrite H.
    + assert (H : strict_eq (Registry.id d) (Some (Registry.id c)) = false).
      { apply bool_decide_eq_false_2. intros Heq. injection Heq as Heq.
        apply Hfresh. rewrite <- Heq. apply list_elem_of_In, in_map, Hin. }
      rewrite H. now apply IH.
Qed.

(** X2: in a table whose ids are distinct, a click on the card of entry
    [c], from a selection that is not [c], makes the detail panel show
    [c] itself; a second click on the same card empties the panel. The
    tables of both viewers have distinct ids. *)
Theorem click_shows_card (table : list Registry.component)
    (c : Registry.component) (s : option string) :
  NoDup (map Registry.id table) -> In c table ->
  s <> Some (Registry.id c) ->
  Registry.selComp table (Selection.onClick s (Registry.id c)) = Some c /\
  Registry.selComp table
    (Selection.onClick (Selection.onClick s (Registry.id c))
       (Registry.id c))
  = None.
Proof.
  intros Hnd Hin Hs. unfold Selection.onClick, strict_eq.
  rewrite (bool_decide_eq_false_2 (s = Some (Registry.id c))) by exact Hs.
  rewrite bool_decide_eq_true_2 by reflexivity.
  split; [now apply selComp_found | apply selComp_none].
Qed.

Lemma registry_ids_distinct :
  NoDup (map Registry.id Registry.COMPONENTS) /\
  NoDup (map Registry.id Registry.COMPONENTS_README).
Proof.
  split; apply (bool_decide_unpack _); vm_compute; exact I.
Qed.

Lemma click_shows_card_witness :
  let c := {| Registry.id := "bearing_drive";
              Registry.label := "Drive-Side Bearing";
              Registry.health := 78; Registry.status := "warning";
              Registry.temp := 62; Registry.vibration := 4.2;
              Registry.faults :=
                ["Outer Race Wear"; "Misalignment Risk"]%string;
              Registry.rrh := "12 days"; Registry.color := "#f5a623" |} in
  Registry.selComp Registry.COMPONENTS
    (Selection.onClick None (Registry.id c)) = Some c /\
  Registry.selComp Registry.COMPONENTS
    (Selection.onClick (Selection.onClick None (Registry.id c))
       (Registry.id c))
  = None.
Proof.
  intros c. apply (click_shows_card Registry.COMPONENTS c None).
  - apply (bool_decide_unpack _). vm_compute. exact I.
  - left. reflexivity.
  - discriminate.
Defined.

Lemma selComp_resolves (table : list Registry.component) (x : string) :
  In x (map Registry.id table) ->
  exists c : Registry.component,
    Registry.selComp table (Some x) = Some c /\ Registry.id c = x.
Proof.
  unfold Registry.selComp. induction table as [|d table IH]; intros Hin.
  - contradiction.
  - cbn [List.find].
    destruct (strict_eq (Registry.id d) (Some x)) eqn:Hd.
    + exists d. split; [reflexivity |].
      apply bool_decide_eq_true_1 in Hd. now injection Hd.
    + apply IH. destruct Hin as [Heq|Hin]; [| exact Hin].
      apply bool_decide_eq_false_1 in Hd. congruence.
Qed.

Lemma clicks_snoc (s : option string) (clicks : list string) (x : string) :
  Registry.clicks_from s (clicks ++ [x])
  = Selection.onClick (Registry.clicks_from s clicks) x.
Proof. unfold Registry.clicks_from. now rewrite fold_left_app. Qed.

(** X3: when every click is on a card of the table, the selection after
    any sequence of clicks from the initial state is either empty or the id
    of the card clicked last, and whenever it is not empty the look-up of
    the detail panel finds an entry with that id. *)
Theorem selection_resolves (table : list Registry.component)
    (clicks : list string) :
  Forall (fun x => In x (map Registry.id table)) clicks ->
  let s := Registry.clicks_from Selection.initial clicks in
  s = None \/
  (s = Some (List.last clicks ""%string) /\
   exists c : Registry.component,
     Registry.selComp table s = Some c /\ s = Some (Registry.id c)).
Proof.
  intros Hall s. subst s.
  induction clicks as [|x0 clicks _] using rev_ind; [now left |].
  rewrite clicks_snoc, last_last.
  apply Forall_app in Hall as [_ Hx]. apply Forall_inv in Hx.
  unfold Selection.onClick.
  destruct (strict_eq x0 (Registry.clicks_from Selection.initial clicks));
    [now left | right].
  split; [reflexivity |].
  destruct (selComp_resolves table x0 Hx) as (c & Hc & Hid).
  exists c. split; [exact Hc | now rewrite Hid].
Qed.

Lemma selection_resolves_witness :
  let s := Registry.clicks_from Selection.initial
             ["housing"; "shaft"]%string in
  s = None \/
  (s = Some (List.last ["housing"; "shaft"]%string ""%string) /\
   exists c : Registry.component,
     Registry.selComp Registry.COMPONENTS s = Some c /\
     s = Some (Registry.id c)).
Proof.
  apply (selection_resolves Registry.COMPONENTS ["housing"; "shaft"]%string).
  repeat constructor; vm_compute; tauto.
Defined.

(** X4: in a table whose statuses are "good", "warning" or "critical",
    the number on the "Alerts" tile (critical plus warning entries) is the
    number of cards that show the pulsing dot. *)
Theorem alerts_count_dots (table : list Registry.component) :
  Forall (fun c => In (Registry.status c)
                      ["good"; "warning"; "critical"]%string) table ->
  Registry.alerts table = length (List.filter Registry.has_dot table).
Proof.
  unfold Registry.alerts, Registry.critCount, Registry.warnCount.
  induction table as [|c table IH]; intros Hall; [reflexivity |].
  apply Forall_cons in Hall as [Hc Hall]. specialize (IH Hall).
  cbn [List.filter]. unfold Registry.has_dot at 1.
  destruct Hc as [Hs|[Hs|[Hs|[]]]]; rewrite <- Hs; simpl; lia.
Qed.

Lemma alerts_count_dots_witness :
  Registry.alerts Registry.COMPONENTS
  = length (List.filter Registry.has_dot Registry.COMPONENTS).
Proof.
  apply (alerts_count_dots Registry.COMPONENTS).
  repeat constructor; vm_compute; tauto.
Defined.

(** ** Camera *)











Lemma handle_keeps_radius (lo hi : R) (e : Orbit.event)
    (s : Orbit.state) :
  Camera.is_wheel e = false ->
  Orbit.radius (Orbit.sph (Orbit.handle lo hi e s))
  = Orbit.radius (Orbit.sph s).
Proof.
  intros He.
  assert (Hm : forall x y, Orbit.radius (Orbit.sph (Orbit.onMove x y s))
                           = Orbit.radius (Orbit.sph s)).
  { intros x y. unfold Orbit.onMove. now destruct (Orbit.isDrag s). }
  destruct e as [x y| |x y|dy|ts|ts|]; try discriminate He;
    try reflexivity; try apply Hm.
  - now destruct ts as [|[x y] [|]].
  - destruct ts as [|[x y] [|]]; try reflexivity. apply Hm.
Qed.

Lemma wheel_keeps_angles (lo hi : R) (e : Orbit.event)
    (s : Orbit.state) :
  Camera.is_wheel e = true ->
  Orbit.theta (Orbit.sph (Orbit.handle lo hi e s))
  = Orbit.theta (Orbit.sph s) /\
  Orbit.phi (Orbit.sph (Orbit.handle lo hi e s)) = Orbit.phi (Orbit.sph s) /\
  Orbit.isDrag (Orbit.handle lo hi e s) = Orbit.isDrag s /\
  Orbit.prev (Orbit.handle lo hi e s) = Orbit.prev s.
Proof.
  intros He. destruct e; try discriminate He. now repeat split.
Qed.

(** X7: turning and zooming do not interfere. Presses, moves, releases
    and touches, in any number and order, leave the orbit radius as it
    was; wheel events leave both angles, the drag flag and the
    remembered pointer position as they were. *)
Theorem drag_and_zoom_independent (lo hi : R)
    (pointer wheels : list Orbit.event) (s : Orbit.state) :
  forallb (fun e => negb (Camera.is_wheel e)) pointer = true ->
  forallb Camera.is_wheel wheels = true ->
  Orbit.radius (Orbit.sph (Orbit.run lo hi pointer s))
  = Orbit.radius (Orbit.sph s) /\
  Orbit.theta (Orbit.sph (Orbit.run lo hi wheels s))
  = Orbit.theta (Orbit.sph s) /\
  Orbit.phi (Orbit.sph (Orbit.run lo hi wheels s))
  = Orbit.phi (Orbit.sph s) /\
  Orbit.isDrag (Orbit.run lo hi wheels s) = Orbit.isDrag s /\
  Orbit.prev (Orbit.run lo hi wheels s) = Orbit.prev s.
Proof.
  intros Hp Hw. split.
  - clear Hw. revert s. induction pointer as [|e es IH]; intros s.
    + reflexivity.
    + cbn [forallb] in Hp. apply andb_prop in Hp as [He Hes].
      apply negb_true_iff in He.
      cbn [Orbit.run fold_left].
      change (fold_left (fun s e => Orbit.handle lo hi e s) es
                (Orbit.handle lo hi e s))
        with (Orbit.run lo hi es (Orbit.handle lo hi e s)).
      rewrite (IH Hes). now apply handle_keeps_radius.
  - clear Hp. revert s. induction wheels as [|e es IH]; intros s.
    + now repeat split.
    + cbn [forallb] in Hw. apply andb_prop in Hw as [He Hes].
      cbn [Orbit.run fold_left].
      change (fold_left (fun s e => Orbit.handle lo hi e s) es
                (Orbit.handle lo hi e s))
        with (Orbit.run lo hi es (Orbit.handle lo hi e s)).
      destruct (IH Hes (Orbit.handle lo hi e s)) as (H1 & H2 & H3 & H4).
      destruct (wheel_keeps_angles lo hi e s He) as (K1 & K2 & K3 & K4).
      repeat split; congruence.
Qed.

Lemma drag_and_zoom_independent_witness :
  let s := Orbit.initial SewPredictive.camera_position in
  let pointer := [Orbit.mousedown 10 20; Orbit.mousemove 50 0;
                  Orbit.touchmove [(7, 9)]; Orbit.mouseup] in
  let wheels := [Orbit.wheel 100; Orbit.wheel (-2500)] in
  Orbit.radius (Orbit.sph (Orbit.run 0.2 1 pointer s))
  = Orbit.radius (Orbit.sph s) /\
  Orbit.theta (Orbit.sph (Orbit.run 0.2 1 wheels s))
  = Orbit.theta (Orbit.sph s) /\
  Orbit.phi (Orbit.sph (Orbit.run 0.2 1 wheels s))
  = Orbit.phi (Orbit.sph s) /\
  Orbit.isDrag (Orbit.run 0.2 1 wheels s) = Orbit.isDrag s /\
  Orbit.prev (Orbit.run 0.2 1 wheels s) = Orbit.prev s.
Proof.
  intros s pointer wheels.
  apply (drag_and_zoom_independent 0.2 1 pointer wheels s).
  - reflexivity.
  - reflexivity.
Defined.

Lemma passive_handle (lo hi : R) (e : Orbit.event) (r : Camera.rig) :
  Orbit.isDrag (Camera.orbit r) = false ->
  Camera.passive e = true ->
  Camera.handle lo hi e r = r.
Proof.
  intros Hd He. destruct r as [[d p sp] pos]. simpl in Hd. subst d.
  destruct e as [x y| |x y|dy|ts|ts|]; try discriminate He;
    try reflexivity.
  - destruct ts as [|[x y] [|]]; try reflexivity. discriminate He.
  - now destruct ts as [|[x y] [|]].
Qed.

(** X8: while no button or finger is down, moves, releases and
    multi-touch gestures change nothing: neither the spherical
    coordinates nor the camera position nor the remembered pointer
    position. There is no inertia after a release. *)
Theorem idle_pointer_changes_nothing (lo hi : R)
    (events : list Orbit.event) (r : Camera.rig) :
  Orbit.isDrag (Camera.orbit r) = false ->
  forallb Camera.passive events = true ->
  Camera.run lo hi events r = r.
Proof.
  intros Hd. induction events as [|e events IH]; intros He.
  - reflexivity.
  - cbn [forallb] in He. apply andb_prop in He as [He Hes].
    cbn [Camera.run fold_left].
    rewrite (passive_handle lo hi e r Hd He). apply IH, Hes.
Qed.

Lemma idle_pointer_changes_nothing_witness :
  Camera.run 0.2 1
    [Orbit.mousemove 10 20; Orbit.mouseup;
     Orbit.touchmove [(1, 2); (3, 4)]]
    (Camera.initial SewPredictive.camera_position)
  = Camera.initial SewPredictive.camera_position.
Proof.
  apply (idle_pointer_changes_nothing 0.2 1).
  - reflexivity.
  - reflexivity.
Defined.

(** ** Frames *)

Lemma frames_snoc_SewPredictive (hids : list (option string))
    (hid : option string) (v : Scene.viewer) :
  SewPredictive.frames (hids ++ [hid]) v
  = SewPredictive.animate hid (SewPredictive.frames hids v).
Proof. unfold SewPredictive.frames. now rewrite fold_left_app. Qed.

Lemma frames_snoc_Readme (hids : list (option string))
    (hid : option string) (v : Scene.viewer) :
  Readme.frames (hids ++ [hid]) v
  = Readme.animate hid (Readme.frames hids v).
Proof. unfold Readme.frames. now rewrite fold_left_app. Qed.

(** What a frame leaves of the time, the rotations and the emissive
    intensities does not depend on the selection, nor on the materials
    the meshes have. *)
Lemma animate_motion_SewPredictive (h1 h2 : option string)
    (v1 v2 : Scene.viewer) :
  Scene.time v1 = Scene.time v2 ->
  Scene.rotation_z v1 = Scene.rotation_z v2 ->
  Scene.emissiveIntensity v1 = Scene.emissiveIntensity v2 ->
  Scene.time (SewPredictive.animate h1 v1)
  = Scene.time (SewPredictive.animate h2 v2) /\
  Scene.rotation_z (SewPredictive.animate h1 v1)
  = Scene.rotation_z (SewPredictive.animate h2 v2) /\
  Scene.emissiveIntensity (SewPredictive.animate h1 v1)
  = Scene.emissiveIntensity (SewPredictive.animate h2 v2).
Proof.
  intros Ht Hr He. unfold SewPredictive.animate. cbn [Scene.time
    Scene.rotation_z Scene.emissiveIntensity].
  now rewrite Ht, Hr, He.
Qed.

Lemma animate_motion_Readme (h1 h2 : option string)
    (v1 v2 : Scene.viewer) :
  Scene.time v1 = Scene.time v2 ->
  Scene.rotation_z v1 = Scene.rotation_z v2 ->
  Scene.emissiveIntensity v1 = Scene.emissiveIntensity v2 ->
  Scene.time (Readme.animate h1 v1) = Scene.time (Readme.animate h2 v2) /\
  Scene.rotation_z (Readme.animate h1 v1)
  = Scene.rotation_z (Readme.animate h2 v2) /\
  Scene.emissiveIntensity (Readme.animate h1 v1)
  = Scene.emissiveIntensity (Readme.animate h2 v2).
Proof.
  intros Ht Hr He. unfold Readme.animate. cbn [Scene.time
    Scene.rotation_z Scene.emissiveIntensity].
  now rewrite Ht, Hr, He.
Qed.

(** X9: the selection has no part in the motion. Two runs of as many
    frames from the same state, whatever is selected in each frame of
    each, end with the same accumulated time, the same rotations of the
    groups and the same emissive intensities; in both viewers. *)
Theorem motion_ignores_selection (hids1 hids2 : list (option string))
    (v w : Scene.viewer) :
  length hids1 = length hids2 ->
  (Scene.time (SewPredictive.frames hids1 v)
   = Scene.time (SewPredictive.frames hids2 v) /\
   Scene.rotation_z (SewPredictive.frames hids1 v)
   = Scene.rotation_z (SewPredictive.frames hids2 v) /\
   Scene.emissiveIntensity (SewPredictive.frames hids1 v)
   = Scene.emissiveIntensity (SewPredictive.frames hids2 v)) /\
  (Scene.time (Readme.frames hids1 w)
   = Scene.time (Readme.frames hids2 w) /\
   Scene.rotation_z (Readme.frames hids1 w)
   = Scene.rotation_z (Readme.frames hids2 w) /\
   Scene.emissiveIntensity (Readme.frames hids1 w)
   = Scene.emissiveIntensity (Readme.frames hids2 w)).
Proof.
  intros Hlen. split.
  - assert (G : forall v1 v2 : Scene.viewer,
               Scene.time v1 = Scene.time v2 ->
               Scene.rotation_z v1 = Scene.rotation_z v2 ->
               Scene.emissiveIntensity v1 = Scene.emissiveIntensity v2 ->
               Scene.time (SewPredictive.frames hids1 v1)
               = Scene.time (SewPredictive.frames hids2 v2) /\
               Scene.rotation_z (SewPredictive.frames hids1 v1)
               = Scene.rotation_z (SewPredictive.frames hids2 v2) /\
               Scene.emissiveIntensity (SewPredictive.frames hids1 v1)
               = Scene.emissiveIntensity (SewPredictive.frames hids2 v2)).
    { revert hids2 Hlen.
      induction hids1 as [|h1 hids1 IH]; intros [|h2 hids2] Hlen v1 v2
        Ht Hr He; try discriminate Hlen.
      - now repeat split.
      - injection Hlen as Hlen.
        change (SewPredictive.frames (h1 :: hids1) v1)
          with (SewPredictive.frames hids1 (SewPredictive.animate h1 v1)).
        change (SewPredictive.frames (h2 :: hids2) v2)
          with (SewPredictive.frames hids2 (SewPredictive.animate h2 v2)).
        destruct (animate_motion_SewPredictive h1 h2 v1 v2 Ht Hr He)
          as (Ht' & Hr' & He').
        now apply IH. }
    now apply G.
  - assert (G : forall v1 v2 : Scene.viewer,
               Scene.time v1 = Scene.time v2 ->
               Scene.rotation_z v1 = Scene.rotation_z v2 ->
               Scene.emissiveIntensity v1 = Scene.emissiveIntensity v2 ->
               Scene.time (Readme.frames hids1 v1)
               = Scene.time (Readme.frames hids2 v2) /\
               Scene.rotation_z (Readme.frames hids1 v1)
               = Scene.rotation_z (Readme.frames hids2 v2) /\
               Scene.emissiveIntensity (Readme.frames hids1 v1)
               = Scene.emissiveIntensity (Readme.frames hids2 v2)).
    { revert hids2 Hlen.
      induction hids1 as [|h1 hids1 IH]; intros [|h2 hids2] Hlen v1 v2
        Ht Hr He; try discriminate Hlen.
      - now repeat split.
      - injection Hlen as Hlen.
        change (Readme.frames (h1 :: hids1) v1)
          with (Readme.frames hids1 (Readme.animate h1 v1)).
        change (Readme.frames (h2 :: hids2) v2)
          with (Readme.frames hids2 (Readme.animate h2 v2)).
        destruct (animate_motion_Readme h1 h2 v1 v2 Ht Hr He)
          as (Ht' & Hr' & He').
        now apply IH. }
    now apply G.
Qed.

Lemma motion_ignores_selection_witness :
  let hids1 := [None; Some "shaft"; Some "housing"]%string in
  let hids2 := [Some "bearing_drive"; Some "bearing_drive"; None]%string in
  (Scene.time (SewPredictive.frames hids1 SewPredictive.initial)
   = Scene.time (SewPredictive.frames hids2 SewPredictive.initial) /\
   Scene.rotation_z (SewPredictive.frames hids1 SewPredictive.initial)
   = Scene.rotation_z (SewPredictive.frames hids2 SewPredictive.initial) /\
   Scene.emissiveIntensity
     (SewPredictive.frames hids1 SewPredictive.initial)
   = Scene.emissiveIntensity
       (SewPredictive.frames hids2 SewPredictive.initial)) /\
  (Scene.time (Readme.frames hids1 Readme.initial)
   = Scene.time (Readme.frames hids2 Readme.initial) /\
   Scene.rotation_z (Readme.frames hids1 Readme.initial)
   = Scene.rotation_z (Readme.frames hids2 Readme.initial) /\
   Scene.emissiveIntensity (Readme.frames hids1 Readme.initial)
   = Scene.emissiveIntensity (Readme.frames hids2 Readme.initial)).
Proof.
  intros hids1 hids2.
  apply (motion_ignores_selection hids1 hids2 SewPredictive.initial
           Readme.initial).
  reflexivity.
Defined.

(** ** Which groups the driver turns *)

Lemma frames_rotation_keys_Readme (hids : list (option string))
    (v : Scene.viewer) (g : ident) :
  (is_Some (Scene.rotation_z v !! g) ->
   In g [Readme.rotorG; Readme.fanG; ("ballG", 0%nat); ("ballG", 1%nat)]) ->
  is_Some (Scene.rotation_z (Readme.frames hids v) !! g) ->
  In g [Readme.rotorG; Readme.fanG; ("ballG", 0%nat); ("ballG", 1%nat)].
Proof.
  revert v. induction hids as [|hid hids IH]; intros v Hv; [exact Hv |].
  change (Readme.frames (hid :: hids) v)
    with (Readme.frames hids (Readme.animate hid v)).
  apply IH. rewrite animate_rotation_Readme. intros Hs.
  destruct (decide (g = ("ballG", 1%nat))) as [->|H1]; [simpl; tauto |].
  rewrite lookup_insert_ne in Hs by congruence.
  destruct (decide (g = ("ballG", 0%nat))) as [->|H0]; [simpl; tauto |].
  rewrite lookup_insert_ne in Hs by congruence.
  destruct (decide (g = Readme.fanG)) as [->|Hf]; [simpl; tauto |].
  rewrite lookup_insert_ne in Hs by congruence.
  destruct (decide (g = Readme.rotorG)) as [->|Hr]; [simpl; tauto |].
  rewrite lookup_insert_ne in Hs by congruence.
  apply Hv, Hs.
Qed.

(** X10: in the cutaway viewer the groups of bearing balls that the
    scan of [statorG] finds are the two [ballG] groups; after every frame
    each of them is turned by 0.44 times the rotor's angle, and the only
    groups that have a rotation about z are [rotorG], [fanG] and these
    two: [motor], [statorG] and the spoke groups are never turned. *)
Theorem bearing_balls_orbit (hids : list (option string))
    (hid : option string) :
  let v := Readme.animate hid (Readme.frames hids Readme.initial) in
  Readme.bbGroups = [("ballG", 0%nat); ("ballG", 1%nat)] /\
  (forall g : ident, In g Readme.bbGroups ->
     Scene.rotation_z v !! g
     = Some (Scene.time v * ((1740 / 60) * PI * 2) * 0.44)) /\
  (forall g : ident,
     is_Some (Scene.rotation_z v !! g) <->
     In g [Readme.rotorG; Readme.fanG; ("ballG", 0%nat);
           ("ballG", 1%nat)]) /\
  Forall (fun g => In g (ReadmeParts.groups Readme.motor))
         [("motor", 0%nat); Readme.statorG; ("spG", 0%nat); ("spG", 9%nat)].
Proof.
  intros v. split; [exact bbGroups_Readme |]. split; [| split].
  - intros g Hg. rewrite bbGroups_Readme in Hg. subst v.
    rewrite animate_rotation_Readme.
    change (Scene.time (Readme.animate hid
                          (Readme.frames hids Readme.initial)))
      with (Scene.time (Readme.frames hids Readme.initial) + 0.016).
    unfold Readme.angV.
    destruct Hg as [<-|[<-|[]]].
    + rewrite lookup_insert_ne by discriminate. apply lookup_insert_eq.
    + apply lookup_insert_eq.
  - intros g. split.
    + subst v. intros Hs.
      apply (frames_rotation_keys_Readme (hids ++ [hid]) Readme.initial).
      * intros [x Hx]. simpl in Hx. now rewrite lookup_empty in Hx.
      * now rewrite frames_snoc_Readme.
    + subst v. rewrite animate_rotation_Readme. intros Hg.
      destruct Hg as [<-|[<-|[<-|[<-|[]]]]].
      * rewrite !lookup_insert_ne by discriminate.
        rewrite lookup_insert_eq. eauto.
      * rewrite !lookup_insert_ne by discriminate.
        rewrite lookup_insert_eq. eauto.
      * rewrite lookup_insert_ne by discriminate.
        rewrite lookup_insert_eq. eauto.
      * rewrite lookup_insert_eq. eauto.
  - repeat constructor; vm_compute; tauto.
Qed.

Lemma frames_rotation_keys_SewPredictive (hids : list (option string))
    (v : Scene.viewer) (g : ident) :
  (is_Some (Scene.rotation_z v !! g) -> g = SewPredictive.rotorG) ->
  is_Some (Scene.rotation_z (SewPredictive.frames hids v) !! g) ->
  g = SewPredictive.rotorG.
Proof.
  revert v. induction hids as [|hid hids IH]; intros v Hv; [exact Hv |].
  change (SewPredictive.frames (hid :: hids) v)
    with (SewPredictive.frames hids (SewPredictive.animate hid v)).
  apply IH. rewrite animate_rotation_SewPredictive. intros Hs.
  destruct (decide (g = SewPredictive.rotorG)) as [->|Hr]; [reflexivity |].
  rewrite lookup_insert_ne in Hs by congruence. apply Hv, Hs.
Qed.

(** X11: in [sew_predictive.jsx] the fan group, a child of the rotor
    group with no rotation of its own, has the rotor's world angle
    [time * (1740/60) * 2*PI] after every frame, and [rotorG] is the only
    group the driver ever turns. *)
Theorem fan_turns_with_rotor (hids : list (option string))
    (hid : option string) :
  let v := SewPredictive.animate hid
             (SewPredictive.frames hids SewPredictive.initial) in
  SewPredictive.rotor_world v
  = Some (Scene.time v * ((1740 / 60) * PI * 2)) /\
  SewPredictive.fan_world v = SewPredictive.rotor_world v /\
  (forall g : ident,
     is_Some (Scene.rotation_z v !! g) <-> g = SewPredictive.rotorG).
Proof.
  intros v.
  destruct (fan_follows_rotor_SewPredictive hids hid) as [Hf Hr].
  fold v in Hf, Hr. split; [exact Hr |]. split; [exact Hf |].
  intros g. split.
  - subst v. intros Hs.
    apply (frames_rotation_keys_SewPredictive (hids ++ [hid])
             SewPredictive.initial).
    + intros [x Hx]. simpl in Hx. now rewrite lookup_empty in Hx.
    + now rewrite frames_snoc_SewPredictive.
  - intros ->. subst v.
    rewrite animate_rotation_SewPredictive, lookup_insert_eq. eauto.
Qed.

(** ** More on the highlight pass *)

Section HighlightScenes.
Import Scene.

Lemma highlight_mesh_SewPredictive (s : option string)
    (mats : gmap ident ident) (m : mesh) :
  m ∈ meshes SewPredictive.motor ->
  SewPredictive.highlight_pass s mats !! oid m
  = Some (if bool_decide (s = Some (compId m))
          then SewPredictive.highlightMat else material0 m).
Proof.
  intros Hm. unfold SewPredictive.highlight_pass.
  rewrite highlight_visit_eq_SewPredictive, pass_lookup.
  rewrite (last_write_mesh _ _ _ _ _ m meshes_distinct_SewPredictive Hm
             eq_refl (origMats_recorded_SewPredictive m Hm)).
  destruct (tagged_SewPredictive m Hm) as [Ht _].
  now rewrite (selected_iff s m Ht).
Qed.

Lemma highlight_mesh_Readme (s : option string)
    (mats : gmap ident ident) (m : mesh) :
  m ∈ meshes Readme.motor ->
  Readme.highlight_pass s mats !! oid m
  = Some (if bool_decide (s = Some (compId m))
          then Readme.mHLIGHT else material0 m).
Proof.
  intros Hm. unfold Readme.highlight_pass.
  destruct (tagged_Readme m Hm) as [Ht Hl].
  rewrite highlight_visit_eq_Readme, pass_lookup.
  rewrite (last_write_mesh _ _ _ _ _ m meshes_distinct_Readme Hm).
  - now rewrite (selected_iff s m Ht).
  - now rewrite Hl.
  - apply (origMats_recorded_Readme m Hm).
Qed.

Lemma highlight_other_SewPredictive (s : option string)
    (mats : gmap ident ident) (i : ident) :
  i ∉ map oid (meshes SewPredictive.motor) ->
  SewPredictive.highlight_pass s mats !! i = mats !! i.
Proof.
  intros Hi. unfold SewPredictive.highlight_pass.
  rewrite highlight_visit_eq_SewPredictive, pass_lookup.
  now rewrite last_write_absent.
Qed.

Lemma highlight_other_Readme (s : option string)
    (mats : gmap ident ident) (i : ident) :
  i ∉ map oid (meshes Readme.motor) ->
  Readme.highlight_pass s mats !! i = mats !! i.
Proof.
  intros Hi. unfold Readme.highlight_pass.
  rewrite highlight_visit_eq_Readme, pass_lookup.
  now rewrite last_write_absent.
Qed.

Lemma mesh_of_id (motor : Object3D) (i : ident) :
  i ∈ map oid (meshes motor) -> exists m, m ∈ meshes motor /\ oid m = i.
Proof.
  intros Hi. apply list_elem_of_fmap in Hi as (m & -> & Hm). eauto.
Qed.

Lemma build_materials_mesh (motor : Object3D) (m : mesh) :
  NoDup (map oid (meshes motor)) -> m ∈ meshes motor ->
  build_materials motor !! oid m = Some (material0 m).
Proof.
  intros Hnd Hm. unfold build_materials.
  apply elem_of_list_to_map_1.
  - rewrite <- list_fmap_compose.
    replace (fst ∘ (fun m0 : mesh => (oid m0, material0 m0))) with oid
      by reflexivity.
    exact Hnd.
  - apply list_elem_of_fmap. exists m. split; [reflexivity | exact Hm].
Qed.

Lemma build_materials_other (motor : Object3D) (i : ident) :
  i ∉ map oid (meshes motor) -> build_materials motor !! i = None.
Proof.
  intros Hi. unfold build_materials. apply not_elem_of_list_to_map_1.
  rewrite <- list_fmap_compose.
  replace (fst ∘ (fun m0 : mesh => (oid m0, material0 m0))) with oid
    by reflexivity.
  exact Hi.
Qed.

End HighlightScenes.

(** X12: a highlight pass forgets the pass before it. For any two
    selections and any material assignment, a pass with the first
    selection followed by a pass with the second leaves exactly what the
    second pass alone leaves, in both viewers: a frame carries no
    material over from an earlier selection. *)
Theorem highlight_last_pass_wins (s1 s2 : option string)
    (mats : gmap ident ident) :
  SewPredictive.highlight_pass s2 (SewPredictive.highlight_pass s1 mats)
  = SewPredictive.highlight_pass s2 mats /\
  Readme.highlight_pass s2 (Readme.highlight_pass s1 mats)
  = Readme.highlight_pass s2 mats.
Proof.
  split; apply map_eq; intros i.
  - destruct (decide (i ∈ map Scene.oid (Scene.meshes SewPredictive.motor)))
      as [Hi|Hi].
    + destruct (mesh_of_id _ _ Hi) as (m & Hm & <-).
      now rewrite !highlight_mesh_SewPredictive.
    + now rewrite !highlight_other_SewPredictive.
  - destruct (decide (i ∈ map Scene.oid (Scene.meshes Readme.motor)))
      as [Hi|Hi].
    + destruct (mesh_of_id _ _ Hi) as (m & Hm & <-).
      now rewrite !highlight_mesh_Readme.
    + now rewrite !highlight_other_Readme.
Qed.

Lemma frames_materials_other_SewPredictive (hids : list (option string))
    (i : ident) :
  i ∉ map Scene.oid (Scene.meshes SewPredictive.motor) ->
  Scene.material (SewPredictive.frames hids SewPredictive.initial) !! i
  = None.
Proof.
  intros Hi. induction hids as [|hid hids IH] using rev_ind.
  - now apply build_materials_other.
  - rewrite frames_snoc_SewPredictive, animate_material_SewPredictive.
    now rewrite highlight_other_SewPredictive.
Qed.

Lemma frames_materials_other_Readme (hids : list (option string))
    (i : ident) :
  i ∉ map Scene.oid (Scene.meshes Readme.motor) ->
  Scene.material (Readme.frames hids Readme.initial) !! i = None.
Proof.
  intros Hi. induction hids as [|hid hids IH] using rev_ind.
  - now apply build_materials_other.
  - rewrite frames_snoc_Readme, animate_material_Readme.
    now rewrite highlight_other_Readme.
Qed.

(** X13: deselecting undoes every highlight. After any history of
    frames, one frame with no selection leaves the material of every mesh
    exactly as the scene was built, in both viewers. *)
Theorem deselect_restores_scene (hids : list (option string)) :
  Scene.material
    (SewPredictive.frames (hids ++ [None]) SewPredictive.initial)
  = Scene.build_materials SewPredictive.motor /\
  Scene.material (Readme.frames (hids ++ [None]) Readme.initial)
  = Scene.build_materials Readme.motor.
Proof.
  split; apply map_eq; intros i.
  - rewrite frames_snoc_SewPredictive, animate_material_SewPredictive.
    destruct (decide (i ∈ map Scene.oid (Scene.meshes SewPredictive.motor)))
      as [Hi|Hi].
    + destruct (mesh_of_id _ _ Hi) as (m & Hm & <-).
      rewrite highlight_mesh_SewPredictive by exact Hm.
      rewrite bool_decide_eq_false_2 by discriminate.
      symmetry. apply build_materials_mesh;
        [apply meshes_distinct_SewPredictive | exact Hm].
    + rewrite highlight_other_SewPredictive by exact Hi.
      rewrite frames_materials_other_SewPredictive by exact Hi.
      symmetry. now apply build_materials_other.
  - rewrite frames_snoc_Readme, animate_material_Readme.
    destruct (decide (i ∈ map Scene.oid (Scene.meshes Readme.motor)))
      as [Hi|Hi].
    + destruct (mesh_of_id _ _ Hi) as (m & Hm & <-).
      rewrite highlight_mesh_Readme by exact Hm.
      rewrite bool_decide_eq_false_2 by discriminate.
      symmetry. apply build_materials_mesh;
        [apply meshes_distinct_Readme | exact Hm].
    + rewrite highlight_other_Readme by exact Hi.
      rewrite frames_materials_other_Readme by exact Hi.
      symmetry. now apply build_materials_other.
Qed.

(** X14: the highlight pass assigns materials to meshes below [motor]
    and to nothing else: whatever the selection, the material of an
    object that is not such a mesh (a label sprite, the grid, an object
    of another scene) is what it was before the pass, in both viewers. *)
Theorem highlight_only_meshes (s : option string)
    (mats : gmap ident ident) (i : ident) :
  i ∉ map Scene.oid (Scene.meshes SewPredictive.motor) ->
  i ∉ map Scene.oid (Scene.meshes Readme.motor) ->
  SewPredictive.highlight_pass s mats !! i = mats !! i /\
  Readme.highlight_pass s mats !! i = mats !! i.
Proof.
  intros Ha Hb. split.
  - now apply highlight_other_SewPredictive.
  - now apply highlight_other_Readme.
Qed.

Lemma highlight_only_meshes_witness :
  let mats : gmap ident ident :=
    <[("sprite", 0%nat) := ("spriteMaterial", 0%nat)]> ∅ in
  SewPredictive.highlight_pass (Some "housing"%string) mats
  !! ("sprite", 0%nat) = mats !! ("sprite", 0%nat) /\
  Readme.highlight_pass (Some "housing"%string) mats
  !! ("sprite", 0%nat) = mats !! ("sprite", 0%nat).
Proof.
  intros mats.
  apply (highlight_only_meshes (Some "housing"%string) mats
           ("sprite", 0%nat)).
  - apply (bool_decide_unpack _). vm_compute. exact I.
  - apply (bool_decide_unpack _). vm_compute. exact I.
Defined.

Lemma tag_has_mesh (motor : Scene.Object3D) (tag : string) :
  existsb (fun m => String.eqb (Scene.compId m) tag) (Scene.meshes motor)
  = true ->
  exists m : Scene.mesh, m ∈ Scene.meshes motor /\ Scene.compId m = tag.
Proof.
  intros H. apply existsb_exists in H as (m & Hm & Ht).
  exists m. split; [now apply list_elem_of_In |].
  now apply String.eqb_eq.
Qed.

(** X15: every card of the registry has something to highlight. For
    each of the eight component ids there is a mesh with that id below
    [motor] in both viewers, and a frame with that id selected gives
    such a mesh the highlight material, whatever its material was. *)
Theorem every_card_highlights (id : string)
    (matsA matsB : gmap ident ident) :
  In id (map Registry.id Registry.COMPONENTS) ->
  (exists a : Scene.mesh,
     a ∈ Scene.meshes SewPredictive.motor /\ Scene.compId a = id /\
     SewPredictive.highlight_pass (Some id) matsA !! Scene.oid a
     = Some SewPredictive.highlightMat) /\
  (exists b : Scene.mesh,
     b ∈ Scene.meshes Readme.motor /\ Scene.compId b = id /\
     Readme.highlight_pass (Some id) matsB !! Scene.oid b
     = Some Readme.mHLIGHT).
Proof.
  intros Hid.
  assert (Ha : exists a, a ∈ Scene.meshes SewPredictive.motor
                         /\ Scene.compId a = id).
  { apply tag_has_mesh. simpl in Hid.
    repeat (destruct Hid as [<-|Hid]; [vm_compute; reflexivity |]).
    contradiction. }
  assert (Hb : exists b, b ∈ Scene.meshes Readme.motor
                         /\ Scene.compId b = id).
  { apply tag_has_mesh. simpl in Hid.
    repeat (destruct Hid as [<-|Hid]; [vm_compute; reflexivity |]).
    contradiction. }
  destruct Ha as (a & Ha & Hta). destruct Hb as (b & Hb & Htb).
  split.
  - exists a. repeat split; try assumption.
    rewrite highlight_mesh_SewPredictive by exact Ha.
    now rewrite bool_decide_eq_true_2 by (now rewrite Hta).
  - exists b. repeat split; try assumption.
    rewrite highlight_mesh_Readme by exact Hb.
    now rewrite bool_decide_eq_true_2 by (now rewrite Htb).
Qed.

Lemma every_card_highlights_witness :
  (exists a : Scene.mesh,
     a ∈ Scene.meshes SewPredictive.motor /\
     Scene.compId a = "junction_box"%string /\
     SewPredictive.highlight_pass (Some "junction_box"%string) ∅
     !! Scene.oid a = Some SewPredictive.highlightMat) /\
  (exists b : Scene.mesh,
     b ∈ Scene.meshes Readme.motor /\
     Scene.compId b = "junction_box"%string /\
     Readme.highlight_pass (Some "junction_box"%string) ∅ !! Scene.oid b
     = Some Readme.mHLIGHT).
Proof.
  apply (every_card_highlights "junction_box" ∅ ∅).
  vm_compute. tauto.
Defined.

(** ** More on the coil pulse *)

Lemma last_pulse_none (cond : Scene.mesh -> bool)
    (origMats : gmap ident ident) (objs : list Scene.Object3D)
    (mat : ident) :
  Forall (fun c => Scene.writes_to cond origMats mat c = false) objs ->
  Scene.last_pulse cond origMats objs mat = None.
Proof.
  induction 1 as [|c cs Hc _ IH]; simpl; [reflexivity |].
  now rewrite IH, Hc.
Qed.

Lemma winding_is_copper_SewPredictive (m : Scene.mesh) :
  m ∈ Scene.meshes SewPredictive.motor ->
  SewPredictive.is_winding m = true ->
  Scene.material0 m = SewPredictive.coilMat.
Proof.
  intros Hm Hw.
  assert (Hall : forallb
            (fun m0 => implb (SewPredictive.is_winding m0)
                         (bool_decide (Scene.material0 m0
                                       = SewPredictive.coilMat)))
            (Scene.meshes SewPredictive.motor) = true)
    by (vm_compute; reflexivity).
  rewrite forallb_forall in Hall.
  specialize (Hall m (proj1 (list_elem_of_In _ _) Hm)).
  rewrite Hw in Hall. now apply bool_decide_eq_true_1 in Hall.
Qed.

Lemma pulse_other_SewPredictive (time : R) (em : gmap ident R)
    (mat : ident) :
  mat <> SewPredictive.coilMat ->
  SewPredictive.pulse_pass time em !! mat = em !! mat.
Proof.
  intros Hne. unfold SewPredictive.pulse_pass.
  rewrite pulse_visit_eq_SewPredictive, pulse_pass_lookup.
  rewrite last_pulse_none; [reflexivity |].
  apply Forall_forall. intros c Hc. unfold Scene.writes_to.
  destruct (Scene.isMesh c) as [m|] eqn:Hm; [| reflexivity].
  assert (Hin : m ∈ Scene.meshes SewPredictive.motor).
  { apply list_elem_of_omap. exists c. split; assumption. }
  destruct (SewPredictive.is_winding m) eqn:Hw; [| reflexivity].
  rewrite (origMats_recorded_SewPredictive m Hin).
  rewrite (winding_is_copper_SewPredictive m Hin Hw).
  apply bool_decide_eq_false_2. congruence.
Qed.

Lemma pulse_other_Readme (time : R) (em : gmap ident R) (mat : ident) :
  mat <> Readme.mCoil ->
  Readme.pulse_pass time em !! mat = em !! mat.
Proof.
  intros Hne. unfold Readme.pulse_pass.
  rewrite pulse_visit_eq_Readme, pulse_pass_lookup.
  rewrite last_pulse_none; [reflexivity |].
  apply Forall_forall. intros c _. unfold Scene.writes_to.
  destruct (Scene.isMesh c) as [m|]; [| reflexivity].
  unfold Readme.is_copper.
  destruct (decide (Readme.origMats !! Scene.oid m = Some Readme.mCoil))
    as [He|He].
  - rewrite He. rewrite (bool_decide_eq_false_2 (Some Readme.mCoil = Some mat))
      by congruence.
    apply andb_false_r.
  - rewrite (bool_decide_eq_false_2 _ He). now rewrite andb_false_r.
Qed.

Lemma frames_emissive_other_SewPredictive (hids : list (option string))
    (mat : ident) :
  mat <> SewPredictive.coilMat ->
  Scene.emissiveIntensity
    (SewPredictive.frames hids SewPredictive.initial) !! mat
  = Scene.emissiveIntensity SewPredictive.initial !! mat.
Proof.
  intros Hne. induction hids as [|hid hids IH] using rev_ind.
  - reflexivity.
  - rewrite frames_snoc_SewPredictive.
    change (Scene.emissiveIntensity
              (SewPredictive.animate hid
                 (SewPredictive.frames hids SewPredictive.initial)))
      with (SewPredictive.pulse_pass
              (Scene.time (SewPredictive.frames hids SewPredictive.initial)
               + 0.016)
              (Scene.emissiveIntensity
                 (SewPredictive.frames hids SewPredictive.initial))).
    now rewrite pulse_other_SewPredictive.
Qed.

Lemma frames_emissive_other_Readme (hids : list (option string))
    (mat : ident) :
  mat <> Readme.mCoil ->
  Scene.emissiveIntensity (Readme.frames hids Readme.initial) !! mat
  = Scene.emissiveIntensity Readme.initial !! mat.
Proof.
  intros Hne. induction hids as [|hid hids IH] using rev_ind.
  - reflexivity.
  - rewrite frames_snoc_Readme.
    change (Scene.emissiveIntensity
              (Readme.animate hid (Readme.frames hids Readme.initial)))
      with (Readme.pulse_pass
              (Scene.time (Readme.frames hids Readme.initial) + 0.016)
              (Scene.emissiveIntensity
                 (Readme.frames hids Readme.initial))).
    now rewrite pulse_other_Readme.
Qed.

(** X16: the coil pulse writes to the copper material and to no other:
    a pass leaves the intensity of every other material as it was, so
    through any number of frames the highlight material keeps the
    intensity it was created with (0.5 and 0.55) and a highlighted
    winding does not pulse. *)
Theorem pulse_only_copper (time : R) (em : gmap ident R) (mat : ident)
    (hids : list (option string)) :
  mat <> SewPredictive.coilMat -> mat <> Readme.mCoil ->
  (SewPredictive.pulse_pass time em !! mat = em !! mat /\
   Readme.pulse_pass time em !! mat = em !! mat) /\
  (Scene.emissiveIntensity
     (SewPredictive.frames hids SewPredictive.initial)
   !! SewPredictive.highlightMat = Some 0.5 /\
   Scene.emissiveIntensity (Readme.frames hids Readme.initial)
   !! Readme.mHLIGHT = Some 0.55).
Proof.
  intros Ha Hb. split; split.
  - now apply pulse_other_SewPredictive.
  - now apply pulse_other_Readme.
  - rewrite frames_emissive_other_SewPredictive by discriminate.
    apply lookup_insert_eq.
  - rewrite frames_emissive_other_Readme by discriminate.
    apply lookup_insert_eq.
Qed.

Lemma pulse_only_copper_witness :
  (SewPredictive.pulse_pass 1 ∅ !! SewPredictive.highlightMat
   = (∅ : gmap ident R) !! SewPredictive.highlightMat /\
   Readme.pulse_pass 1 ∅ !! SewPredictive.highlightMat
   = (∅ : gmap ident R) !! SewPredictive.highlightMat) /\
  (Scene.emissiveIntensity
     (SewPredictive.frames [None] SewPredictive.initial)
   !! SewPredictive.highlightMat = Some 0.5 /\
   Scene.emissiveIntensity (Readme.frames [None] Readme.initial)
   !! Readme.mHLIGHT = Some 0.55).
Proof.
  apply (pulse_only_copper 1 ∅ SewPredictive.highlightMat [None]).
  - discriminate.
  - discriminate.
Defined.

(** ** More on the map of original materials *)

(** X17: for any graph below [motor], the keys of [origMats] are
    exactly the meshes of the graph: groups and lines get no entry, and
    in both built scenes the group [statorG] is not a key while the
    housing mesh is. *)
Theorem origMats_keys_exact (motor : Scene.Object3D) (i : ident) :
  (is_Some (Scene.build_origMats motor !! i)
   <-> i ∈ map Scene.oid (Scene.meshes motor)) /\
  SewPredictive.origMats !! SewPredictive.statorG = None /\
  Readme.origMats !! Readme.statorG = None /\
  Readme.origMats !! ("cutEdge", 0%nat) = None /\
  SewPredictive.origMats !! ("housingMesh", 0%nat)
  = Some SewPredictive.housing /\
  Readme.origMats !! ("housingMesh", 0%nat) = Some Readme.mHousing.
Proof.
  split; [apply origMats_keys |].
  repeat split; vm_compute; reflexivity.
Qed.

(** ** More on the partial cylinder *)

Section PartialCylinderFaces.
Import Geometry.

Variables radius height a0 a1 : R.
Variable segments : nat.

#[local] Abbreviation g := (partialCylinder radius height a0 a1 segments).


Lemma partialCylinder_index_range :
  Forall (fun j => (j < vertex_count g)%nat) (index g).
Proof.
  unfold vertex_count.
  rewrite partialCylinder_index, partialCylinder_position.
  rewrite blocks_length by reflexivity.
  replace (6 * S segments)%nat with ((2 * (segments + 1)) * 3)%nat by lia.
  rewrite Nat.div_mul by discriminate.
  apply Forall_forall. intros j Hj.
  apply list_elem_of_In, in_flat_map in Hj as (i & Hi & Hj).
  apply in_seq in Hi. unfold quad_indices in Hj. simpl in Hj.
  repeat (destruct Hj as [<-|Hj]; [lia |]). contradiction.
Qed.



End PartialCylinderFaces.

(** X18: whatever the segment count, every index of the partial
    cylinder refers to one of its vertices, there are six indices per
    segment, and the normal array is as long as the position array. *)
Theorem partialCylinder_indices_valid (radius height a0 a1 : R)
    (segments : nat) :
  let g := Geometry.partialCylinder radius height a0 a1 segments in
  Forall (fun j => (j < Geometry.vertex_count g)%nat) (Geometry.index g) /\
  length (Geometry.index g) = (6 * segments)%nat /\
  length (Geometry.normal g) = length (Geometry.position g).
Proof.
  intros g. subst g. split; [apply partialCylinder_index_range |].
  rewrite partialCylinder_index, partialCylinder_normal,
    partialCylinder_position.
  rewrite !blocks_length by reflexivity. split; reflexivity.
Qed.





(** ** Cooling fins of the cutaway housing *)

Lemma fin_meshes_Readme (i : nat) :
  (i < Readme.FIN_COUNT)%nat ->
  let a := ReadmeParts.fin_angle i in
  {| Scene.oid := ("fin", i); Scene.geometry := Scene.Box;
     Scene.compId := "housing"; Scene.isLabel := false;
     Scene.material0 := ("fin.material", i);
     Scene.pos := (sin a * (Readme.hR + Readme.finH * 0.5),
                   cos a * (Readme.hR + Readme.finH * 0.5), 0) |}
  ∈ Scene.meshes Readme.motor.
Proof.
  intros Hi a. subst a.
  apply list_elem_of_lookup_2 with (S i).
  unfold Readme.FIN_COUNT in Hi.
  do 18 (destruct i as [|i]; [reflexivity |]). lia.
Qed.

(** X21: the eighteen cooling fins of the cutaway housing sit on the
    solid arc only. Fin [i] is a mesh of the scene tagged "housing", with
    a material of its own, placed at angle [fin_angle i], and this angle
    lies strictly between the end of the cut (140 degrees) and the start
    of the cut one turn later (310 degrees). *)
Theorem fins_on_solid_arc (i : nat) :
  (i < Readme.FIN_COUNT)%nat ->
  let a := ReadmeParts.fin_angle i in
  (exists m : Scene.mesh,
     m ∈ Scene.meshes Readme.motor /\
     Scene.oid m = ("fin", i) /\ Scene.compId m = "housing"%string /\
     Scene.material0 m = ("fin.material", i) /\
     Scene.pos m = (sin a * (Readme.hR + Readme.finH * 0.5),
                    cos a * (Readme.hR + Readme.finH * 0.5), 0)) /\
  Geometry.CUT_END < a < Geometry.CUT_START + 2 * PI /\
  140 * PI / 180 < a < 310 * PI / 180.
Proof.
  intros Hi a. split.
  - eexists. split; [apply (fin_meshes_Readme i Hi) |].
    repeat split; reflexivity.
  - assert (Hb : 140 * PI / 180 < a < 310 * PI / 180).
    { subst a. unfold ReadmeParts.fin_angle, Readme.SOLID_START,
        Readme.SOLID_END, Geometry.SOLID_START, Geometry.SOLID_END,
        Geometry.solid_arc, Geometry.CUT_START, Geometry.CUT_END,
        Readme.FIN_COUNT in *. cbn [fst snd].
      pose proof PI_digits as HPI.
      assert (H18 : INR 18 = 18) by (simpl; lra). rewrite H18.
      assert (Hi0 : 0 <= INR i) by apply pos_INR.
      assert (Hi1 : INR i <= 17).
      { replace 17 with (INR 17) by (simpl; lra). apply le_INR. lia. }
      set (x := INR i) in *.
      replace (-50 * PI / 180 + PI * 2 - 140 * PI / 180)
        with (170 * PI / 180) by lra.
      split.
      - assert (0 < 170 * PI / 180 * ((x + 0.5) / 18)).
        { apply Rmult_lt_0_compat; [lra |]. lra. }
        lra.
      - assert (170 * PI / 180 * ((x + 0.5) / 18) < 170 * PI / 180 * 1).
        { apply Rmult_lt_compat_l; lra. }
        lra. }
    split; [| exact Hb].
    unfold Geometry.CUT_START, Geometry.CUT_END. lra.
Qed.

Lemma fins_on_solid_arc_witness :
  let a := ReadmeParts.fin_angle 0 in
  (exists m : Scene.mesh,
     m ∈ Scene.meshes Readme.motor /\
     Scene.oid m = ("fin", 0%nat) /\ Scene.compId m = "housing"%string /\
     Scene.material0 m = ("fin.material", 0%nat) /\
     Scene.pos m = (sin a * (Readme.hR + Readme.finH * 0.5),
                    cos a * (Readme.hR + Readme.finH * 0.5), 0)) /\
  Geometry.CUT_END < a < Geometry.CUT_START + 2 * PI /\
  140 * PI / 180 < a < 310 * PI / 180.
Proof.
  apply (fins_on_solid_arc 0). unfold Readme.FIN_COUNT. lia.
Defined.

(** ** Tags and materials of the built scenes *)

Lemma originals_not_highlight :
  Forall (fun m => Scene.material0 m <> SewPredictive.highlightMat)
         (Scene.meshes SewPredictive.motor) /\
  Forall (fun m => Scene.material0 m <> Readme.mHLIGHT)
         (Scene.meshes Readme.motor).
Proof.
  split; apply Forall_forall; intros m Hm.
  - assert (H : forallb
                  (fun m0 => negb (bool_decide
                                     (Scene.material0 m0
                                      = SewPredictive.highlightMat)))
                  (Scene.meshes SewPredictive.motor) = true)
      by (vm_compute; reflexivity).
    rewrite forallb_forall in H.
    specialize (H m (proj1 (list_elem_of_In _ _) Hm)).
    apply negb_true_iff, bool_decide_eq_false_1 in H. exact H.
  - assert (H : forallb
                  (fun m0 => negb (bool_decide
                                     (Scene.material0 m0 = Readme.mHLIGHT)))
                  (Scene.meshes Readme.motor) = true)
      by (vm_compute; reflexivity).
    rewrite forallb_forall in H.
    specialize (H m (proj1 (list_elem_of_In _ _) Hm)).
    apply negb_true_iff, bool_decide_eq_false_1 in H. exact H.
Qed.

(** X22: every mesh below [motor], in both viewers, is tagged with the
    id of one card of the registry, carries no label flag, and was
    constructed with a material other than the highlight material; so a
    mesh is highlighted by exactly one card, and a highlighted mesh never
    looks like a mesh that is not. *)
Theorem meshes_belong_to_cards (a b : Scene.mesh) :
  a ∈ Scene.meshes SewPredictive.motor ->
  b ∈ Scene.meshes Readme.motor ->
  (In (Scene.compId a) (map Registry.id Registry.COMPONENTS) /\
   Scene.isLabel a = false /\
   Scene.material0 a <> SewPredictive.highlightMat /\
   forall s mats,
     SewPredictive.highlight_pass s mats !! Scene.oid a
     = Some SewPredictive.highlightMat
     <-> s = Some (Scene.compId a)) /\
  (In (Scene.compId b) (map Registry.id Registry.COMPONENTS_README) /\
   Scene.isLabel b = false /\
   Scene.material0 b <> Readme.mHLIGHT /\
   forall s mats,
     Readme.highlight_pass s mats !! Scene.oid b = Some Readme.mHLIGHT
     <-> s = Some (Scene.compId b)).
Proof.
  intros Ha Hb.
  destruct (tagged_SewPredictive a Ha) as [Hta Hla].
  destruct (tagged_Readme b Hb) as [Htb Hlb].
  destruct originals_not_highlight as [Hna Hnb].
  rewrite Forall_forall in Hna, Hnb.
  specialize (Hna a Ha). specialize (Hnb b Hb).
  split.
  - split; [| split; [exact Hla | split; [exact Hna |]]].
    + unfold Selection.COMPONENT_IDS in Hta.
      repeat (apply elem_of_cons in Hta as [->|Hta];
              [vm_compute; tauto |]).
      now apply elem_of_nil in Hta.
    + intros s mats. rewrite highlight_mesh_SewPredictive by exact Ha.
      destruct (decide (s = Some (Scene.compId a))) as [He|He].
      * rewrite bool_decide_eq_true_2 by exact He. tauto.
      * rewrite bool_decide_eq_false_2 by exact He.
        split; [intros H; injection H as H; contradiction | tauto].
  - split; [| split; [exact Hlb | split; [exact Hnb |]]].
    + unfold Selection.COMPONENT_IDS in Htb.
      repeat (apply elem_of_cons in Htb as [->|Htb];
              [vm_compute; tauto |]).
      now apply elem_of_nil in Htb.
    + intros s mats. rewrite highlight_mesh_Readme by exact Hb.
      destruct (decide (s = Some (Scene.compId b))) as [He|He].
      * rewrite bool_decide_eq_true_2 by exact He. tauto.
      * rewrite bool_decide_eq_false_2 by exact He.
        split; [intros H; injection H as H; contradiction | tauto].
Qed.

Lemma meshes_belong_to_cards_witness :
  let a := {| Scene.oid := ("housingMesh", 0%nat);
              Scene.geometry := Scene.Cylinder;
              Scene.compId := "housing"; Scene.isLabel := false;
              Scene.material0 := SewPredictive.housing;
              Scene.pos := (0, 0, 0) |} in
  let b := {| Scene.oid := ("housingMesh", 0%nat);
              Scene.geometry := Scene.Buffer;
              Scene.compId := "housing"; Scene.isLabel := false;
              Scene.material0 := Readme.mHousing;
              Scene.pos := (0, 0, 0) |} in
  (In (Scene.compId a) (map Registry.id Registry.COMPONENTS) /\
   Scene.isLabel a = false /\
   Scene.material0 a <> SewPredictive.highlightMat /\
   forall s mats,
     SewPredictive.highlight_pass s mats !! Scene.oid a
     = Some SewPredictive.highlightMat
     <-> s = Some (Scene.compId a)) /\
  (In (Scene.compId b) (map Registry.id Registry.COMPONENTS_README) /\
   Scene.isLabel b = false /\
   Scene.material0 b <> Readme.mHLIGHT /\
   forall s mats,
     Readme.highlight_pass s mats !! Scene.oid b = Some Readme.mHLIGHT
     <-> s = Some (Scene.compId b)).
Proof.
  intros a b. apply (meshes_belong_to_cards a b).
  - apply list_elem_of_here.
  - apply list_elem_of_here.
Defined.

Lemma last_pulse_mesh (cond : Scene.mesh -> bool)
    (origMats : gmap ident ident) (objs : list Scene.Object3D)
    (mat : ident) (m : Scene.mesh) :
  Scene.last_pulse cond origMats objs mat = Some m ->
  m ∈ omap Scene.isMesh objs.
Proof.
  induction objs as [|c cs IH]; [discriminate |].
  cbn [Scene.last_pulse omap list_omap].
  destruct (Scene.last_pulse cond origMats cs mat) as [m'|].
  - intros H. injection H as ->.
    destruct (Scene.isMesh c); [apply list_elem_of_further |]; now apply IH.
  - destruct (Scene.writes_to cond origMats mat c); [| discriminate].
    intros H. rewrite H. apply list_elem_of_here.
Qed.

(** X23: all winding meshes that pulse share one copper material, so a
    pass leaves on it the value computed for the winding mesh visited
    last, whatever the store held and whatever the other windings'
    phases are: within a frame the windings do not differ in intensity.
    That mesh is coil 35 of [sew_predictive.jsx], at angle 35/36 of a
    turn on the bore, and the last copper end loop of the cutaway viewer
    (loop 11 of 12 of the second end); the value is the sinusoid at the
    phase of its position. *)
Theorem pulse_last_winding_wins (time : R) (em1 em2 : gmap ident R) :
  (exists m : Scene.mesh,
     m ∈ Scene.meshes SewPredictive.motor /\
     Scene.oid m = ("coil", 35%nat) /\
     Scene.pos m
     = (let a := (INR 35 / 36) * PI * 2 in
        (0, cos a * SewPredictive.stInR, sin a * SewPredictive.stInR)) /\
     SewPredictive.pulse_pass time em1 !! SewPredictive.coilMat
     = Some (SewPredictive.pulse_value time m) /\
     SewPredictive.pulse_value time m
     = (let a := (INR 35 / 36) * PI * 2 in
        let ph := (cos a * SewPredictive.stInR
                   + sin a * SewPredictive.stInR) * 25 in
        0.2 + sin (time * 25 + ph) * 0.25)) /\
  (exists m : Scene.mesh,
     m ∈ Scene.meshes Readme.motor /\
     Scene.oid m = ("copper", 23%nat) /\
     Scene.pos m
     = (let a := (INR 11 / INR Readme.END_LOOPS) * PI * 2 in
        let loopR := Readme.stInR - 0.014 in
        (sin a * loopR, cos a * loopR, Readme.rL * 0.5 + 0.006)) /\
     Readme.pulse_pass time em1 !! Readme.mCoil
     = Some (Readme.pulse_value time m) /\
     Readme.pulse_value time m
     = (let a := (INR 11 / INR Readme.END_LOOPS) * PI * 2 in
        let loopR := Readme.stInR - 0.014 in
        0.14 + sin (time * 18
                    + Math_atan2 (sin a * loopR) (cos a * loopR) * 3)
               * 0.22)) /\
  SewPredictive.pulse_pass time em1 !! SewPredictive.coilMat
  = SewPredictive.pulse_pass time em2 !! SewPredictive.coilMat /\
  Readme.pulse_pass time em1 !! Readme.mCoil
  = Readme.pulse_pass time em2 !! Readme.mCoil /\
  Forall (fun m => SewPredictive.is_winding m = true ->
                   SewPredictive.origMats !! Scene.oid m
                   = Some SewPredictive.coilMat)
         (Scene.meshes SewPredictive.motor).
Proof.
  split; [| split; [| split; [| split]]].
  - pose proof last_writer_SewPredictive as Hl. cbv zeta in Hl.
    cbn [SewPredictive.mk Scene.isMesh] in Hl.
    eexists. split; [exact (last_pulse_mesh _ _ _ _ _ Hl) |].
    split; [reflexivity |]. split; [reflexivity |]. split; [| reflexivity].
    unfold SewPredictive.pulse_pass.
    now rewrite pulse_visit_eq_SewPredictive, pulse_pass_lookup, Hl.
  - pose proof last_writer_Readme as Hl. cbv zeta in Hl.
    cbn [Readme.mk Scene.isMesh] in Hl.
    eexists. split; [exact (last_pulse_mesh _ _ _ _ _ Hl) |].
    split; [reflexivity |]. split; [reflexivity |]. split; [| reflexivity].
    unfold Readme.pulse_pass.
    now rewrite pulse_visit_eq_Readme, pulse_pass_lookup, Hl.
  - unfold SewPredictive.pulse_pass.
    now rewrite pulse_visit_eq_SewPredictive, !pulse_pass_lookup,
      last_writer_SewPredictive.
  - unfold Readme.pulse_pass.
    now rewrite pulse_visit_eq_Readme, !pulse_pass_lookup,
      last_writer_Readme.
  - apply Forall_forall. intros m Hm Hw.
    rewrite (origMats_recorded_SewPredictive m Hm).
    now rewrite (winding_is_copper_SewPredictive m Hm Hw).
Qed.
